(** * Distributed key-value store: hash ring, local store and router

    A shallow embedding of the Go sources

      - [hash/hash.go]    (package [hash]: the consistent-hash ring),
      - [store/kvstore.go] (package [store]: the guarded map),
      - [main.go]         (package [main]: the gRPC handlers that route),

    together with the standard-library routines the ring relies on
    ([crc32.ChecksumIEEE], [strconv.Itoa], [sort.Search], [sort.Ints]).

    Conventions.  A Go [int] is modelled as [Z]; on the 64-bit targets the
    program is built for, every value stored in an [int] below is either a
    slice index or a [uint32] checksum, so no wrap-around occurs.  A Go
    [string] is a [string] of 8-bit characters.  A method with a pointer
    receiver becomes a function that returns the updated receiver.  A
    run-time panic is an explicit [Panicked] outcome. *)

From Stdlib Require Import ZArith String Ascii List Sorted Permutation.
From Equations Require Import Equations.
From Equations.Prop Require Import Logic.
From stdpp Require Import base tactics option list sorting gmap strings.

Local Open Scope Z_scope.
Set Warnings "-clear-no-such-hyp".

(** ** Outcomes of Go calls that may panic *)

Inductive panic : Set :=
| IndexOutOfRange.  (* runtime error: index out of range [i] with length n *)

Inductive outcome (A : Type) : Type :=
| Returned (a : A)
| Panicked (p : panic).
Arguments Returned {A} a.
Arguments Panicked {A} p.

#[global] Instance outcome_ret : MRet outcome := @Returned.
#[global] Instance outcome_bind : MBind outcome := λ A B f m,
  match m with
  | Returned a => f a
  | Panicked p => Panicked p
  end.

(** [l[i]] on a Go slice: panics outside [0, len l). *)
Definition index {A} (l : list A) (i : Z) : outcome A :=
  if i <? 0 then Panicked IndexOutOfRange
  else match l !! Z.to_nat i with
       | Some x => Returned x
       | None => Panicked IndexOutOfRange
       end.

(** ** Package [hash/crc32] (Go standard library, table-driven form) *)
Module crc32.

(** [const IEEE = 0xedb88320] *)
Definition IEEE : Z := 0xedb88320.

(** One entry of [simplePopulateTable]: eight shift-and-xor rounds. *)
Definition table_entry (poly i : Z) : Z :=
  Nat.iter 8
    (λ crc, if Z.testbit crc 0 then Z.lxor (Z.shiftr crc 1) poly
            else Z.shiftr crc 1)
    i.

Definition simpleMakeTable (poly : Z) : list Z :=
  table_entry poly <$> seqZ 0 256.

Definition IEEETable : list Z := Eval vm_compute in simpleMakeTable IEEE.

(** The values of a [uint32]. *)
Definition uint32 (x : Z) : Prop := 0 ≤ x < 2 ^ 32.

(** [^crc] on a [uint32]. *)
Definition not32 (crc : Z) : Z := Z.lxor crc 0xFFFFFFFF.

(** [simpleUpdate]: [crc = tab[byte(crc)^v] ^ (crc >> 8)] for every byte. *)
Definition simpleUpdate (crc : Z) (tab : list Z) (p : list Z) : Z :=
  not32 (foldl (λ crc v, Z.lxor (tab !!! Z.to_nat (Z.lxor (Z.land crc 0xFF) v))
                                (Z.shiftr crc 8))
               (not32 crc) p).

(** [[]byte(s)] *)
Definition bytes (s : string) : list Z :=
  (λ c, Z.of_N (N_of_ascii c)) <$> list_ascii_of_string s.

Definition ChecksumIEEE (data : list Z) : Z := simpleUpdate 0 IEEETable data.

End crc32.

(** ** Package [strconv]: decimal formatting of an [int] *)
Module strconv.

(** Digits of [u >= 0], most significant first, prepended to [acc].  A
    64-bit [int] has at most 20 decimal digits. *)
Fixpoint formatBits (fuel : nat) (u : Z) (acc : string) : string :=
  match fuel with
  | O => acc
  | S fuel' =>
      let acc' := String (ascii_of_N (Z.to_N (48 + u mod 10))) acc in
      if u / 10 =? 0 then acc' else formatBits fuel' (u / 10) acc'
  end.

Definition Itoa (i : Z) : string :=
  if i <? 0 then String "-" (formatBits 20 (- i) EmptyString)
  else formatBits 20 i EmptyString.

End strconv.

(** ** Package [sort] *)
Module sort.

(** [sort.Search]:
<<
    i, j := 0, n
    for i < j {
      h := int(uint(i+j) >> 1)
      if !f(h) { i = h + 1 } else { j = h }
    }
    return i
>>
    The predicate may panic (the caller's closure indexes a slice). *)
Equations? Search_loop (f : Z → outcome bool) (i j : Z) : outcome Z
  by wf (Z.to_nat (j - i)) lt :=
  Search_loop f i j with inspect (i <? j) := {
    | exist _ true Hlt =>
        match f (Z.shiftr (i + j) 1) with
        | Panicked p => Panicked p
        | Returned b =>
            if negb b then Search_loop f (Z.shiftr (i + j) 1 + 1) j
            else Search_loop f i (Z.shiftr (i + j) 1)
        end
    | exist _ false _ => Returned i }.
Proof.
  all: apply Z.ltb_lt in Hlt; rewrite Z.shiftr_div_pow2 by lia;
    change (2 ^ 1) with 2;
    pose proof (Z.div_mod (i + j) 2 ltac:(lia));
    pose proof (Z.mod_pos_bound (i + j) 2 ltac:(lia)); lia.
Defined.

Definition Search (n : Z) (f : Z → outcome bool) : outcome Z :=
  Search_loop f 0 n.

(** [sort.Ints]: sorts in increasing order.  The sorted arrangement of a
    sequence of integers is unique, so any sorting algorithm models it. *)
Definition Ints (x : list Z) : list Z := merge_sort Z.le x.

End sort.

(** ** Package [hash]: the ring ([hash/hash.go]) *)
Module hash.

Record HashRing : Type := mkHashRing {
  nodes : list Z;
  nodeMap : gmap Z string;
  replication : Z;
}.

(** [NewHashRing] creates a new hash ring. *)
Definition NewHashRing (replication : Z) : HashRing :=
  {| nodes := []; nodeMap := ∅; replication := replication |}.

(** [int(crc32.ChecksumIEEE([]byte(s)))] *)
Definition checksum (s : string) : Z :=
  crc32.ChecksumIEEE (crc32.bytes s).

(** Body of the loop of [AddNode] for the virtual index [i]. *)
Definition AddNode_step (node : string) (hr : HashRing) (i : Z) : HashRing :=
  let hash := checksum (node +:+ strconv.Itoa i) in
  {| nodes := nodes hr ++ [hash];
     nodeMap := <[hash := node]> (nodeMap hr);
     replication := replication hr |}.

(** [AddNode] adds a node to the hash ring. *)
Definition AddNode (hr : HashRing) (node : string) : HashRing :=
  let hr' := foldl (AddNode_step node) hr (seqZ 0 (replication hr)) in
  {| nodes := sort.Ints (nodes hr');
     nodeMap := nodeMap hr';
     replication := replication hr' |}.

(** [GetNode] returns the node for a given key.  A key missing from a Go
    map reads as the zero value, the empty string. *)
Definition GetNode (hr : HashRing) (key : string) : outcome string :=
  let hash := checksum key in
  idx ← sort.Search (Z.of_nat (length (nodes hr)))
          (λ i, x ← index (nodes hr) i; mret (bool_decide (x >= hash)));
  let idx := if bool_decide (idx = Z.of_nat (length (nodes hr))) then 0 else idx in
  h ← index (nodes hr) idx;
  mret (default EmptyString (nodeMap hr !! h)).

(** *** Vocabulary for the ring's properties *)

(** The hash of the virtual node [i] of [node]: the node identifier
    concatenated with the virtual index, hashed. *)
Definition vnode_hash (node : string) (i : Z) : Z :=
  checksum (node +:+ strconv.Itoa i).

(** The hashes of the virtual nodes [0 .. R-1] of [node]. *)
Definition vnode_hashes (R : Z) (node : string) : list Z :=
  vnode_hash node <$> seqZ 0 R.

(** The closure handed to [sort.Search], and its value as a total
    function inside the slice. *)
Definition at_least (hr : HashRing) (hash : Z) (i : Z) : outcome bool :=
  x ← index (nodes hr) i; mret (bool_decide (x >= hash)).

Definition at_least_val (hr : HashRing) (hash : Z) (i : Z) : bool :=
  match nodes hr !! Z.to_nat i with
  | Some x => bool_decide (x >= hash)
  | None => true
  end.

(** The ring obtained from [NewHashRing R] by adding the nodes [ns] in
    order, as [main()] does. *)
Definition build (R : Z) (ns : list string) : HashRing :=
  foldl AddNode (NewHashRing R) ns.

(** The ring states a client of the package can produce. *)
Inductive reachable : HashRing → Prop :=
| reachable_new R : reachable (NewHashRing R)
| reachable_add hr node : reachable hr → reachable (AddNode hr node).

End hash.

(** ** Package [store]: the local key-value store ([store/kvstore.go])

    Every method takes the store's lock on entry and releases it on return
    ([defer]), so a call runs atomically; a call is modelled as one step on
    the guarded map. *)
Module store.

Record KeyValueStore : Type := mkKeyValueStore {
  data : gmap string string;
}.

(** [NewKeyValueStore] creates a new KeyValueStore. *)
Definition NewKeyValueStore : KeyValueStore := {| data := ∅ |}.

(** [Put] adds a key-value pair to the store: [kvs.data[key] = value]. *)
Definition Put (kvs : KeyValueStore) (key value : string) : KeyValueStore :=
  {| data := <[key := value]> (data kvs) |}.

(** [value, exists := kvs.data[key]; return value, exists] *)
Definition Get (kvs : KeyValueStore) (key : string)
  : (string * bool) * KeyValueStore :=
  match data kvs !! key with
  | Some value => ((value, true), kvs)
  | None => ((EmptyString, false), kvs)
  end.

(** [delete(kvs.data, key)] *)
Definition Delete (kvs : KeyValueStore) (key : string) : KeyValueStore :=
  {| data := delete key (data kvs) |}.

End store.

(** ** Package [kvstore]: the generated message types *)
Module pb.

(** Modelled from the spec: the generated file [kvstore/kvstore.pb.go] is
    not part of the sources; the messages have the shapes of the spec's
    remote-call interface, [Put(key, value) → {success}],
    [Get(key) → {value, found}], [Delete(key) → {success}], with the
    field names [main.go] uses. *)
Record PutRequest : Type := mkPutRequest {
  PutRequest_Key : string;
  PutRequest_Value : string;
}.

(** Modelled from the spec: see [PutRequest]. *)
Record PutResponse : Type := mkPutResponse {
  PutResponse_Success : bool;
}.

(** Modelled from the spec: see [PutRequest]. *)
Record GetRequest : Type := mkGetRequest {
  GetRequest_Key : string;
}.

(** Modelled from the spec: see [PutRequest]. *)
Record GetResponse : Type := mkGetResponse {
  GetResponse_Value : string;
  GetResponse_Found : bool;
}.

(** Modelled from the spec: see [PutRequest]. *)
Record DeleteRequest : Type := mkDeleteRequest {
  DeleteRequest_Key : string;
}.

(** Modelled from the spec: see [PutRequest]. *)
Record DeleteResponse : Type := mkDeleteResponse {
  DeleteResponse_Success : bool;
}.

End pb.

(** ** Package [main]: the routing handlers ([main.go]) *)
Module main.

(** A Go [error] value, identified by its message. *)
Definition error : Type := string.

(** The caller's [context.Context], handed through untouched. *)
Definition Context : Type := N.

(** What a handler returns: a response pointer and an [error], either of
    which may be [nil]. *)
Definition reply (R : Type) : Type := option R * option error.

(** *** The cluster seen from one node

    Everything a handler does outside its own process is recorded, in
    order, in a log of outbound events.  The rest of the cluster is an
    arbitrary environment: what a dial or a remote call answers may depend
    on the target and on everything that happened before. *)
Inductive NetEvent : Type :=
| EvDial (target : string)
| EvPut (target : string) (ctx : Context) (req : pb.PutRequest)
| EvGet (target : string) (ctx : Context) (req : pb.GetRequest)
| EvDelete (target : string) (ctx : Context) (req : pb.DeleteRequest)
| EvClose (target : string).

Record Transport : Type := mkTransport {
  dial_error : list NetEvent → string → option error;
  remote_Put : list NetEvent → string → Context → pb.PutRequest
               → reply pb.PutResponse;
  remote_Get : list NetEvent → string → Context → pb.GetRequest
               → reply pb.GetResponse;
  remote_Delete : list NetEvent → string → Context → pb.DeleteRequest
                  → reply pb.DeleteResponse;
}.

(** [*grpc.ClientConn] *)
Record ClientConn : Type := mkClientConn { conn_target : string }.

(** The mutable objects a handler can reach: the store behind the pointer
    [s.store], and the network. *)
Record World : Type := mkWorld {
  the_store : store.KeyValueStore;
  net_log : list NetEvent;
}.

(** [Server] implements the KeyValueService and includes the hash ring.
    The fields are set once in [main()] and never assigned again; the
    field [store] points to [the_store] of the world. *)
Record Server : Type := mkServer {
  hashRing : hash.HashRing;
  currentNode : string;
  nodes : list string;
}.

(** The world after the outbound events [evs], the store untouched. *)
Definition after_events (w : World) (evs : list NetEvent) : World :=
  {| the_store := the_store w; net_log := net_log w ++ evs |}.

(** Handlers: state passing over the world, with panics. *)
Definition M (A : Type) : Type := World → outcome A * World.

#[global] Instance M_ret : MRet M := λ A a w, (Returned a, w).
#[global] Instance M_bind : MBind M := λ A B f m w,
  match m w with
  | (Returned a, w') => f a w'
  | (Panicked p, w') => (Panicked p, w')
  end.

Definition lift {A} (o : outcome A) : M A := λ w, (o, w).

(** [grpc.Dial(target, grpc.WithInsecure())] *)
Definition grpc_Dial (T : Transport) (target : string)
  : M (error + ClientConn) := λ w,
  let r := match dial_error T (net_log w) target with
           | Some err => inl err
           | None => inr {| conn_target := target |}
           end in
  (Returned r, {| the_store := the_store w;
                  net_log := net_log w ++ [EvDial target] |}).

(** [conn.Close()] *)
Definition conn_Close (conn : ClientConn) : M () := λ w,
  (Returned (), {| the_store := the_store w;
                   net_log := net_log w ++ [EvClose (conn_target conn)] |}).

(** [pb.NewKeyValueServiceClient(conn).Put(ctx, req)] and its siblings *)
Definition client_Put (T : Transport) (conn : ClientConn) (ctx : Context)
    (req : pb.PutRequest) : M (reply pb.PutResponse) := λ w,
  (Returned (remote_Put T (net_log w) (conn_target conn) ctx req),
   {| the_store := the_store w;
      net_log := net_log w ++ [EvPut (conn_target conn) ctx req] |}).

Definition client_Get (T : Transport) (conn : ClientConn) (ctx : Context)
    (req : pb.GetRequest) : M (reply pb.GetResponse) := λ w,
  (Returned (remote_Get T (net_log w) (conn_target conn) ctx req),
   {| the_store := the_store w;
      net_log := net_log w ++ [EvGet (conn_target conn) ctx req] |}).

Definition client_Delete (T : Transport) (conn : ClientConn) (ctx : Context)
    (req : pb.DeleteRequest) : M (reply pb.DeleteResponse) := λ w,
  (Returned (remote_Delete T (net_log w) (conn_target conn) ctx req),
   {| the_store := the_store w;
      net_log := net_log w ++ [EvDelete (conn_target conn) ctx req] |}).

(** [s.store.Put], [s.store.Get], [s.store.Delete] *)
Definition store_Put (key value : string) : M () := λ w,
  (Returned (), {| the_store := store.Put (the_store w) key value;
                   net_log := net_log w |}).

Definition store_Get (key : string) : M (string * bool) := λ w,
  let '(r, st) := store.Get (the_store w) key in
  (Returned r, {| the_store := st; net_log := net_log w |}).

Definition store_Delete (key : string) : M () := λ w,
  (Returned (), {| the_store := store.Delete (the_store w) key;
                   net_log := net_log w |}).

(** [Put] inserts or updates a key-value pair. *)
Definition Put (T : Transport) (s : Server) (ctx : Context)
    (req : pb.PutRequest) : M (reply pb.PutResponse) :=
  (* Determine the responsible node for the key. *)
  targetNode ← lift (hash.GetNode (hashRing s) (pb.PutRequest_Key req));
  if bool_decide (targetNode ≠ currentNode s) then
    (* Forward the request to the responsible node via gRPC. *)
    r ← grpc_Dial T targetNode;
    match r with
    | inl err => mret (None, Some err)
    | inr conn =>
        res ← client_Put T conn ctx req;
        _ ← conn_Close conn;  (* defer conn.Close() *)
        mret res
    end
  else
    (* Handle the request locally. *)
    _ ← store_Put (pb.PutRequest_Key req) (pb.PutRequest_Value req);
    mret (Some {| pb.PutResponse_Success := true |}, None).

(** [Get] retrieves a value by key. *)
Definition Get (T : Transport) (s : Server) (ctx : Context)
    (req : pb.GetRequest) : M (reply pb.GetResponse) :=
  targetNode ← lift (hash.GetNode (hashRing s) (pb.GetRequest_Key req));
  if bool_decide (targetNode ≠ currentNode s) then
    r ← grpc_Dial T targetNode;
    match r with
    | inl err => mret (None, Some err)
    | inr conn =>
        res ← client_Get T conn ctx req;
        _ ← conn_Close conn;
        mret res
    end
  else
    '(value, found) ← store_Get (pb.GetRequest_Key req);
    mret (Some {| pb.GetResponse_Value := value;
                  pb.GetResponse_Found := found |}, None).

(** [Delete] removes a key-value pair. *)
Definition Delete (T : Transport) (s : Server) (ctx : Context)
    (req : pb.DeleteRequest) : M (reply pb.DeleteResponse) :=
  targetNode ← lift (hash.GetNode (hashRing s) (pb.DeleteRequest_Key req));
  if bool_decide (targetNode ≠ currentNode s) then
    r ← grpc_Dial T targetNode;
    match r with
    | inl err => mret (None, Some err)
    | inr conn =>
        res ← client_Delete T conn ctx req;
        _ ← conn_Close conn;
        mret res
    end
  else
    _ ← store_Delete (pb.DeleteRequest_Key req);
    mret (Some {| pb.DeleteResponse_Success := true |}, None).

(** The configuration of [main()]. *)
Definition main_nodes : list string :=
  ["localhost:50051"; "localhost:50052"; "localhost:50053"]%string.

Definition main_hashRing : hash.HashRing :=
  foldl hash.AddNode (hash.NewHashRing 3) main_nodes.

Definition main_server : Server :=
  {| hashRing := main_hashRing;
     currentNode := "localhost:50051";
     nodes := main_nodes |}.

Definition main_world : World :=
  {| the_store := store.NewKeyValueStore; net_log := [] |}.

(** Three environments for the examples: a cluster whose other nodes
    answer, one where no connection can be established, and one where
    every remote call fails. *)
Definition answering_cluster : Transport :=
  {| dial_error := λ _ _, None;
     remote_Put := λ _ _ _ _,
       (Some {| pb.PutResponse_Success := true |}, None);
     remote_Get := λ _ _ _ _,
       (Some {| pb.GetResponse_Value := "myvalue";
                pb.GetResponse_Found := true |}, None);
     remote_Delete := λ _ _ _ _,
       (Some {| pb.DeleteResponse_Success := true |}, None) |}.

Definition unreachable_cluster : Transport :=
  {| dial_error := λ _ _, Some "connection refused"%string;
     remote_Put := λ _ _ _ _, (None, None);
     remote_Get := λ _ _ _ _, (None, None);
     remote_Delete := λ _ _ _ _, (None, None) |}.

Definition failing_cluster : Transport :=
  {| dial_error := λ _ _, None;
     remote_Put := λ _ _ _ _, (None, Some "unavailable"%string);
     remote_Get := λ _ _ _ _, (None, Some "unavailable"%string);
     remote_Delete := λ _ _ _ _, (None, Some "unavailable"%string) |}.

End main.

(** ** Vocabulary for further properties of the ring and the store *)

(** [successor l x h]: on the ring with entries [l], the entry [h] is the
    one met first when walking clockwise from position [x]: the least
    entry at or above [x], or the least entry of all when every entry is
    below [x]. *)
Definition successor (l : list Z) (x h : Z) : Prop :=
  h ∈ l
  ∧ ((x ≤ h ∧ ∀ h', h' ∈ l → x ≤ h' → h ≤ h')
     ∨ ((∀ h', h' ∈ l → h' < x) ∧ ∀ h', h' ∈ l → h ≤ h')).

(** A mutation of the store, and the store after a sequence of them. *)
Inductive StoreOp : Type :=
| OpPut (key value : string)
| OpDelete (key : string).

Definition op_key (o : StoreOp) : string :=
  match o with
  | OpPut key _ => key
  | OpDelete key => key
  end.

Definition apply_op (kvs : store.KeyValueStore) (o : StoreOp)
  : store.KeyValueStore :=
  match o with
  | OpPut key value => store.Put kvs key value
  | OpDelete key => store.Delete kvs key
  end.

Definition replay (kvs : store.KeyValueStore) (ops : list StoreOp)
  : store.KeyValueStore :=
  foldl apply_op kvs ops.

(** What the last mutation of [K] in [ops] left: [Some (Some V)] after a
    [Put K V], [Some None] after a [Delete K], [None] when [ops] does not
    touch [K]. *)
Definition last_write (K : string) (ops : list StoreOp)
  : option (option string) :=
  foldl (λ acc o,
           match o with
           | OpPut key value => if decide (key = K) then Some (Some value) else acc
           | OpDelete key => if decide (key = K) then Some None else acc
           end)
        None ops.

(** The node an outbound event is addressed to. *)
Definition ev_target (ev : main.NetEvent) : string :=
  match ev with
  | main.EvDial target => target
  | main.EvPut target _ _ => target
  | main.EvGet target _ _ => target
  | main.EvDelete target _ _ => target
  | main.EvClose target => target
  end.

(** The result of a handler call on the world [w]: a reply (no panic), and
    nothing sent except to nodes of [ns] other than the server itself. *)
Definition replies_within {A} (s : main.Server) (ns : list string)
    (w : main.World) (res : outcome A * main.World) : Prop :=
  (∃ rep, res.1 = Returned rep)
  ∧ ∃ evs, main.net_log res.2 = main.net_log w ++ evs
           ∧ Forall (λ ev, ev_target ev ∈ ns
                           ∧ ev_target ev ≠ main.currentNode s) evs.

(** The store of the server [s] holds only keys that the ring of [s]
    assigns to [s] itself. *)
Definition holds_only_owned_keys (s : main.Server) (kvs : store.KeyValueStore)
  : Prop :=
  ∀ K V, store.data kvs !! K = Some V →
         hash.GetNode (main.hashRing s) K = Returned (main.currentNode s).

(** ** Several nodes: handlers calling handlers

    [main()] starts one server per process, listening on its own
    [currentNode]; the remote call of a forwarding handler is served by the
    handler of the process listening on the target address.  The gRPC
    library is taken at its documented behaviour: [grpc.Dial] without
    [WithBlock] returns at once with no error; a call to an address where
    nothing listens fails with an error and no response; a panic in a
    handler is not recovered and ends the process it runs in. *)
Module cluster.

Inductive Request : Type :=
| ReqPut (req : pb.PutRequest)
| ReqGet (req : pb.GetRequest)
| ReqDelete (req : pb.DeleteRequest).

Inductive Response : Type :=
| RespPut (r : main.reply pb.PutResponse)
| RespGet (r : main.reply pb.GetResponse)
| RespDelete (r : main.reply pb.DeleteResponse).

Definition request_key (r : Request) : string :=
  match r with
  | ReqPut req => pb.PutRequest_Key req
  | ReqGet req => pb.GetRequest_Key req
  | ReqDelete req => pb.DeleteRequest_Key req
  end.

(** The service registered by [pb.RegisterKeyValueServiceServer]: every
    method is bound to the handler of its name. *)
Definition handle (T : main.Transport) (s : main.Server) (ctx : main.Context)
    (r : Request) : main.M Response :=
  match r with
  | ReqPut req => rep ← main.Put T s ctx req; mret (RespPut rep)
  | ReqGet req => rep ← main.Get T s ctx req; mret (RespGet rep)
  | ReqDelete req => rep ← main.Delete T s ctx req; mret (RespDelete rep)
  end.

(** One running process: the ring and node list its [main()] built, and
    its store.  The address it listens on is its [currentNode]. *)
Record Node : Type := mkNode {
  node_ring : hash.HashRing;
  node_nodes : list string;
  node_store : store.KeyValueStore;
}.

(** The running processes, by listen address. *)
Abbreviation Cluster := (gmap string Node).

Definition server_of (a : string) (n : Node) : main.Server :=
  {| main.hashRing := node_ring n;
     main.currentNode := a;
     main.nodes := node_nodes n |}.

Definition with_store (n : Node) (kvs : store.KeyValueStore) : Node :=
  {| node_ring := node_ring n; node_nodes := node_nodes n; node_store := kvs |}.

(** The error of a call that reached no handler, or whose handler died. *)
Definition unavailable : main.error := "unavailable"%string.

(** What the caller holds when no response came back: [(nil, err)]. *)
Definition no_response (r : Request) : Response :=
  match r with
  | ReqPut _ => RespPut (None, Some unavailable)
  | ReqGet _ => RespGet (None, Some unavailable)
  | ReqDelete _ => RespDelete (None, Some unavailable)
  end.

(** The remote call an outbound event stands for, if any. *)
Definition event_request (ev : main.NetEvent)
  : option (string * main.Context * Request) :=
  match ev with
  | main.EvPut t ctx req => Some (t, ctx, ReqPut req)
  | main.EvGet t ctx req => Some (t, ctx, ReqGet req)
  | main.EvDelete t ctx req => Some (t, ctx, ReqDelete req)
  | main.EvDial _ | main.EvClose _ => None
  end.

(** The network as a handler sees it, given what a call to another node
    does ([forward], which has no answer when the call never returns). *)
Definition transport_of
    (forward : string → main.Context → Request → option (Response * Cluster))
  : main.Transport :=
  {| main.dial_error := λ _ _, None;
     main.remote_Put := λ _ t ctx req,
       match forward t ctx (ReqPut req) with
       | Some (RespPut rep, _) => rep
       | _ => (None, Some unavailable)
       end;
     main.remote_Get := λ _ t ctx req,
       match forward t ctx (ReqGet req) with
       | Some (RespGet rep, _) => rep
       | _ => (None, Some unavailable)
       end;
     main.remote_Delete := λ _ t ctx req,
       match forward t ctx (ReqDelete req) with
       | Some (RespDelete rep, _) => rep
       | _ => (None, Some unavailable)
       end |}.

(** [serve hops c a ctx r]: the request [r] is sent to the address [a] of
    the cluster [c]; the result is what the caller receives and the cluster
    afterwards, or [None] when the chain of forwarded calls is longer than
    [hops].

    The handler of [a] runs on the store of [a]; its remote calls are
    served, in turn, by the cluster as it is (a handler sends at most one
    request).  Afterwards the cluster is the one the forwarded call left,
    with the store of [a] as the handler left it. *)
Fixpoint serve (hops : nat) (c : Cluster) (a : string) (ctx : main.Context)
    (r : Request) {struct hops} : option (Response * Cluster) :=
  match c !! a with
  | None => Some (no_response r, c)
  | Some n =>
      let forward : string → main.Context → Request
                    → option (Response * Cluster) :=
        match hops with
        | O => λ _ _ _, None
        | S hops' => serve hops' c
        end in
      match handle (transport_of forward) (server_of a n) ctx r
              {| main.the_store := node_store n; main.net_log := [] |} with
      | (Panicked _, _) => Some (no_response r, delete a c)
      | (Returned resp, w') =>
          c' ← match omap event_request (main.net_log w') with
               | [] => Some c
               | [(t, ctx', r')] => snd <$> forward t ctx' r'
               | _ => None
               end;
          Some (resp, <[a := with_store n (main.the_store w')]> c')
      end
  end.

(** All running processes were started with the ring [ring]. *)
Definition shared_ring (c : Cluster) (ring : hash.HashRing) : Prop :=
  ∀ a n, c !! a = Some n → node_ring n = ring.

(** Every running process keeps in its store only keys that its own ring
    assigns to it. *)
Definition placed (c : Cluster) : Prop :=
  ∀ a n, c !! a = Some n →
         holds_only_owned_keys (server_of a n) (node_store n).

(** What the handler of the owner does to its store and answers, for a
    request on a key it owns. *)
Definition local_result (kvs : store.KeyValueStore) (r : Request)
  : Response * store.KeyValueStore :=
  match r with
  | ReqPut req =>
      (RespPut (Some {| pb.PutResponse_Success := true |}, None),
       store.Put kvs (pb.PutRequest_Key req) (pb.PutRequest_Value req))
  | ReqGet req =>
      (RespGet (Some {| pb.GetResponse_Value :=
                          (store.Get kvs (pb.GetRequest_Key req)).1.1;
                        pb.GetResponse_Found :=
                          (store.Get kvs (pb.GetRequest_Key req)).1.2 |},
                None),
       kvs)
  | ReqDelete req =>
      (RespDelete (Some {| pb.DeleteResponse_Success := true |}, None),
       store.Delete kvs (pb.DeleteRequest_Key req))
  end.

(** The deployment of the README: the three processes of [main()], each
    with the ring of [main()] and an empty store. *)
Definition main_node : Node :=
  {| node_ring := main.main_hashRing;
     node_nodes := main.main_nodes;
     node_store := store.NewKeyValueStore |}.

Definition main_cluster : Cluster :=
  <["localhost:50051"%string := main_node]>
    (<["localhost:50052"%string := main_node]>
       (<["localhost:50053"%string := main_node]> ∅)).

(** Two processes started with node lists that leave each one out of its
    own ring: each takes the other for the owner of every key. *)
Definition crossed_cluster : Cluster :=
  <["A"%string := {| node_ring := hash.build 3 ["B"%string];
                     node_nodes := ["B"%string];
                     node_store := store.NewKeyValueStore |}]>
    (<["B"%string := {| node_ring := hash.build 3 ["A"%string];
                        node_nodes := ["A"%string];
                        node_store := store.NewKeyValueStore |}]> ∅).

End cluster.

Example crc32_check :
  hash.checksum "123456789" = 0xCBF43926.
Proof. vm_compute. reflexivity. Qed.

Example Itoa_ex : strconv.Itoa 0 = "0"%string ∧ strconv.Itoa 17 = "17"%string
  ∧ strconv.Itoa (-305) = "-305"%string.
Proof. vm_compute. auto. Qed.

(** * Properties *)

(** ** Slice indexing *)

Lemma index_in_range {A} (l : list A) (i : Z) (x : A) :
  0 ≤ i → l !! Z.to_nat i = Some x → index l i = Returned x.
Proof.
  intros Hi Hx. unfold index.
  destruct (Z.ltb_spec i 0); [lia|]. by rewrite Hx.
Qed.

Lemma index_out_of_range {A} (l : list A) (i : Z) :
  i < 0 ∨ Z.of_nat (length l) ≤ i → index l i = Panicked IndexOutOfRange.
Proof.
  intros Hi. unfold index.
  destruct (Z.ltb_spec i 0); [done|].
  rewrite lookup_ge_None_2; [done|lia].
Qed.

(** ** The checksum is a [uint32]

    This is what makes [int(crc32.ChecksumIEEE(..))] the identity on a
    64-bit target. *)
Section checksum.
Import crc32.

Lemma lxor_uint32 a b : uint32 a → uint32 b → uint32 (Z.lxor a b).
Proof.
  unfold uint32. intros Ha Hb.
  assert (0 ≤ Z.lxor a b) as Hnn by (apply Z.lxor_nonneg; lia).
  split; [done|].
  destruct (decide (Z.lxor a b = 0)) as [->|Hnz]; [lia|].
  apply Z.log2_lt_pow2; [lia|].
  pose proof (Z.log2_lxor a b ltac:(lia) ltac:(lia)) as Hlog.
  assert (Z.log2 a < 32).
  { destruct (decide (a = 0)) as [->|]; [simpl; lia|].
    apply Z.log2_lt_pow2; lia. }
  assert (Z.log2 b < 32).
  { destruct (decide (b = 0)) as [->|]; [simpl; lia|].
    apply Z.log2_lt_pow2; lia. }
  lia.
Qed.

Lemma shiftr_uint32 a n : 0 ≤ n → uint32 a → uint32 (Z.shiftr a n).
Proof.
  unfold uint32. intros Hn Ha. rewrite Z.shiftr_div_pow2 by done.
  assert (0 < 2 ^ n) by (apply Z.pow_pos_nonneg; lia).
  split; [apply Z.div_pos; lia|].
  apply Z.le_lt_trans with a; [|lia].
  apply Z.div_le_upper_bound; [lia|]. nia.
Qed.

Lemma IEEETable_uint32 : Forall uint32 IEEETable.
Proof. apply (bool_decide_unpack _). vm_compute. exact I. Qed.

Lemma simpleUpdate_uint32 (p : list Z) : uint32 (simpleUpdate 0 IEEETable p).
Proof.
  unfold simpleUpdate.
  assert (uint32 0xFFFFFFFF) as Hmask by (unfold uint32; lia).
  apply lxor_uint32; [|done].
  assert (uint32 (not32 0)) as Hinit by (apply lxor_uint32; [unfold uint32; lia|done]).
  revert Hinit. generalize (not32 0).
  induction p as [|v p IH]; intros crc Hcrc; simpl; [done|].
  apply IH, lxor_uint32; [|by apply shiftr_uint32].
  rewrite list_lookup_total_alt.
  destruct (IEEETable !! _) as [x|] eqn:Hx; simpl.
  - by apply (Forall_lookup_1 _ _ _ _ IEEETable_uint32 Hx).
  - unfold uint32. change (@inhabitant Z _) with 0. lia.
Qed.

Lemma checksum_uint32 (s : string) : uint32 (hash.checksum s).
Proof. apply simpleUpdate_uint32. Qed.

End checksum.

(** ** [sort.Search]: the loop finds the least index where a monotone
    predicate holds *)
Section search.
Import sort.

Lemma Search_loop_done f i j : j ≤ i → Search_loop f i j = Returned i.
Proof.
  intros Hij. funelim (Search_loop f i j); [|done].
  pose proof (proj1 (Z.ltb_lt _ _) Hlt). lia.
Qed.

Lemma Search_loop_step f i j :
  i < j →
  Search_loop f i j =
    match f (Z.shiftr (i + j) 1) with
    | Panicked p => Panicked p
    | Returned b =>
        if negb b then Search_loop f (Z.shiftr (i + j) 1 + 1) j
        else Search_loop f i (Z.shiftr (i + j) 1)
    end.
Proof.
  intros Hij. funelim (Search_loop f i j); [done|].
  pose proof (proj1 (Z.ltb_ge _ _) e). lia.
Qed.

Lemma midpoint_bounds i j : i < j → i ≤ Z.shiftr (i + j) 1 < j.
Proof.
  intros Hij. rewrite Z.shiftr_div_pow2 by lia. change (2 ^ 1) with 2.
  pose proof (Z.div_mod (i + j) 2 ltac:(lia)).
  pose proof (Z.mod_pos_bound (i + j) 2 ltac:(lia)). lia.
Qed.

Variable n : Z.
Variable f : Z → outcome bool.
Variable g : Z → bool.
Hypothesis f_total : ∀ k, 0 ≤ k < n → f k = Returned (g k).
Hypothesis g_mono : ∀ a b, 0 ≤ a → a ≤ b → b < n → g a = true → g b = true.

Lemma Search_loop_least (m : nat) : ∀ i j,
  Z.to_nat (j - i) = m →
  0 ≤ i → i ≤ j → j ≤ n →
  (∀ k, 0 ≤ k < i → g k = false) →
  (∀ k, j ≤ k < n → g k = true) →
  ∃ r, Search_loop f i j = Returned r ∧ i ≤ r ≤ j
       ∧ (∀ k, 0 ≤ k < r → g k = false) ∧ (∀ k, r ≤ k < n → g k = true).
Proof.
  induction m as [m IH] using lt_wf_ind.
  intros i j Hm Hi Hij Hj Hlo Hhi.
  destruct (decide (i = j)) as [->|Hne].
  { exists j. rewrite Search_loop_done by lia. repeat split; auto; lia. }
  assert (i < j) as Hlt by lia.
  pose proof (midpoint_bounds i j Hlt) as Hh.
  rewrite (Search_loop_step f i j Hlt), f_total by lia.
  destruct (g (Z.shiftr (i + j) 1)) eqn:Hg; simpl.
  - destruct (IH (Z.to_nat (Z.shiftr (i + j) 1 - i)) ltac:(lia)
                i (Z.shiftr (i + j) 1)) as (r & Hr & Hb & Hr1 & Hr2);
      try done; try lia.
    { intros k Hk. apply (g_mono (Z.shiftr (i + j) 1)); auto; lia. }
    exists r. repeat split; auto; lia.
  - destruct (IH (Z.to_nat (j - (Z.shiftr (i + j) 1 + 1))) ltac:(lia)
                (Z.shiftr (i + j) 1 + 1) j) as (r & Hr & Hb & Hr1 & Hr2);
      try done; try lia.
    { intros k Hk. destruct (g k) eqn:Hgk; [|done].
      rewrite (g_mono k (Z.shiftr (i + j) 1)) in Hg; auto; lia. }
    exists r. repeat split; auto; lia.
Qed.

Lemma Search_least :
  0 ≤ n →
  ∃ r, Search n f = Returned r ∧ 0 ≤ r ≤ n
       ∧ (∀ k, 0 ≤ k < r → g k = false) ∧ (∀ k, r ≤ k < n → g k = true).
Proof.
  intros Hn. unfold Search.
  apply (Search_loop_least (Z.to_nat (n - 0))); auto; lia.
Qed.

End search.

(** ** The ring: what [AddNode] leaves behind *)
Section ring.
Import hash.

Lemma AddNode_loop_nodes node l : ∀ hr,
  nodes (foldl (AddNode_step node) hr l) = nodes hr ++ (vnode_hash node <$> l).
Proof.
  induction l as [|i l IH]; intros hr; simpl.
  - by rewrite app_nil_r.
  - rewrite IH. simpl. by rewrite <- app_assoc.
Qed.

Lemma AddNode_loop_replication node l : ∀ hr,
  replication (foldl (AddNode_step node) hr l) = replication hr.
Proof. induction l as [|i l IH]; intros hr; simpl; [done|by rewrite IH]. Qed.

Lemma AddNode_loop_nodeMap node l h : ∀ hr,
  nodeMap (foldl (AddNode_step node) hr l) !! h =
    if decide (h ∈ vnode_hash node <$> l) then Some node else nodeMap hr !! h.
Proof.
  induction l as [|i l IH]; intros hr; [done|].
  cbn [foldl]. rewrite IH, fmap_cons.
  change (nodeMap (AddNode_step node hr i))
    with (<[vnode_hash node i := node]> (nodeMap hr)).
  repeat case_decide; try done.
  - set_solver.
  - destruct (decide (h = vnode_hash node i)) as [->|Hne].
    + by rewrite lookup_insert_eq.
    + set_solver.
  - rewrite lookup_insert_ne; [done|]. set_solver.
Qed.

Lemma AddNode_nodes hr node :
  nodes (AddNode hr node) =
    sort.Ints (nodes hr ++ vnode_hashes (replication hr) node).
Proof. unfold AddNode. simpl. by rewrite AddNode_loop_nodes. Qed.

Lemma AddNode_replication hr node :
  replication (AddNode hr node) = replication hr.
Proof. unfold AddNode. simpl. by rewrite AddNode_loop_replication. Qed.

Lemma AddNode_nodeMap hr node h :
  nodeMap (AddNode hr node) !! h =
    if decide (h ∈ vnode_hashes (replication hr) node) then Some node
    else nodeMap hr !! h.
Proof. unfold AddNode. simpl. by rewrite AddNode_loop_nodeMap. Qed.

Lemma AddNode_perm hr node :
  nodes (AddNode hr node) ≡ₚ nodes hr ++ vnode_hashes (replication hr) node.
Proof. rewrite AddNode_nodes. apply merge_sort_Permutation. Qed.

Lemma AddNode_sorted hr node : Sorted Z.le (nodes (AddNode hr node)).
Proof. rewrite AddNode_nodes. apply (Sorted_merge_sort Z.le). Qed.

Lemma elem_of_vnode_hashes R node h :
  h ∈ vnode_hashes R node ↔ ∃ i, 0 ≤ i < R ∧ h = vnode_hash node i.
Proof.
  unfold vnode_hashes. rewrite list_elem_of_fmap.
  setoid_rewrite elem_of_seqZ. naive_solver lia.
Qed.

Lemma length_vnode_hashes R node : length (vnode_hashes R node) = Z.to_nat R.
Proof. unfold vnode_hashes. by rewrite length_fmap, length_seqZ. Qed.

Lemma build_snoc R ns node : build R (ns ++ [node]) = AddNode (build R ns) node.
Proof. unfold build. by rewrite foldl_snoc. Qed.

Lemma build_replication R ns : replication (build R ns) = R.
Proof.
  induction ns as [|node ns IH] using rev_ind; [done|].
  by rewrite build_snoc, AddNode_replication.
Qed.

Lemma build_perm R ns : nodes (build R ns) ≡ₚ ns ≫= vnode_hashes R.
Proof.
  induction ns as [|node ns IH] using rev_ind; [done|].
  rewrite build_snoc, AddNode_perm, build_replication, IH, bind_app.
  simpl. by rewrite app_nil_r.
Qed.

Lemma build_sorted R ns : Sorted Z.le (nodes (build R ns)).
Proof.
  destruct ns as [|node ns _] using rev_ind; [constructor|].
  rewrite build_snoc. apply AddNode_sorted.
Qed.

(** Every entry is the hash of a virtual node of an added node, and the
    map sends it to such a node. *)
Lemma build_owner R ns h :
  h ∈ nodes (build R ns) →
  ∃ node i, node ∈ ns ∧ 0 ≤ i < R ∧ h = vnode_hash node i
            ∧ nodeMap (build R ns) !! h = Some node.
Proof.
  induction ns as [|node ns IH] using rev_ind.
  - intros Hin. by apply elem_of_nil in Hin.
  - rewrite build_snoc. intros Hin. rewrite AddNode_perm in Hin.
    rewrite AddNode_nodeMap. rewrite build_replication in *.
    case_decide as Hv.
    + apply elem_of_vnode_hashes in Hv as (i & Hi & ->).
      exists node, i. set_solver.
    + apply elem_of_app in Hin as [Hin|Hin]; [|done].
      destruct (IH Hin) as (node' & i & ? & ? & ? & ?).
      exists node', i. set_solver.
Qed.

Lemma count_occ_NoDup (l : list Z) (h : Z) :
  NoDup l → h ∈ l → count_occ Z.eq_dec l h = 1%nat.
Proof.
  intros Hnd Hin.
  apply NoDup_ListNoDup in Hnd.
  apply (proj1 (NoDup_count_occ' Z.eq_dec l) Hnd h).
  by apply list_elem_of_In.
Qed.

Lemma NoDup_vnode_hashes R ns node :
  NoDup (ns ≫= vnode_hashes R) → node ∈ ns → NoDup (vnode_hashes R node).
Proof.
  intros Hnd (l1 & l2 & ->)%list_elem_of_split.
  rewrite bind_app, bind_cons in Hnd.
  apply NoDup_app in Hnd as (_ & _ & Hnd).
  by apply NoDup_app in Hnd as (Hnd & _).
Qed.

Lemma reachable_build hr : reachable hr → ∃ R ns, hr = build R ns.
Proof.
  induction 1 as [R|hr node _ (R & ns & ->)].
  - by exists R, [].
  - exists R, (ns ++ [node]). by rewrite build_snoc.
Qed.

Lemma build_reachable R ns : reachable (build R ns).
Proof.
  induction ns as [|node ns IH] using rev_ind; [constructor|].
  rewrite build_snoc. by constructor.
Qed.

End ring.

(** ** The ring: what [GetNode] returns *)
Section lookup.
Import hash.

Lemma Sorted_lookup_le (l : list Z) (a b : nat) (x y : Z) :
  Sorted Z.le l → (a ≤ b)%nat → l !! a = Some x → l !! b = Some y → x ≤ y.
Proof.
  intros Hs%Sorted_StronglySorted; [|apply _].
  revert a b. induction Hs as [|z l Hs IH Hz]; intros a b Hab Ha Hb.
  - by rewrite lookup_nil in Ha.
  - destruct a as [|a], b as [|b]; simpl in *; simplify_eq; try lia.
    + rewrite List.Forall_forall in Hz. apply Hz.
      apply list_elem_of_In. by eapply list_elem_of_lookup_2.
    + eapply IH; [|done..]. lia.
Qed.

Lemma at_least_total hr hash k :
  0 ≤ k < Z.of_nat (length (nodes hr)) →
  at_least hr hash k = Returned (at_least_val hr hash k).
Proof.
  intros Hk. unfold at_least, at_least_val.
  destruct (lookup_lt_is_Some_2 (nodes hr) (Z.to_nat k)) as [x Hx]; [lia|].
  rewrite (index_in_range _ _ x), Hx by (done || lia). done.
Qed.

Lemma at_least_mono hr hash a b :
  Sorted Z.le (nodes hr) →
  0 ≤ a → a ≤ b → b < Z.of_nat (length (nodes hr)) →
  at_least_val hr hash a = true → at_least_val hr hash b = true.
Proof.
  intros Hs Ha Hab Hb. unfold at_least_val.
  destruct (lookup_lt_is_Some_2 (nodes hr) (Z.to_nat a)) as [x Hx]; [lia|].
  destruct (lookup_lt_is_Some_2 (nodes hr) (Z.to_nat b)) as [y Hy]; [lia|].
  rewrite Hx, Hy, !bool_decide_eq_true.
  assert (x ≤ y); [|lia].
  apply (Sorted_lookup_le _ (Z.to_nat a) (Z.to_nat b) x y Hs); [lia|done..].
Qed.

Lemma GetNode_unfold hr key :
  GetNode hr key =
    idx ← sort.Search (Z.of_nat (length (nodes hr))) (at_least hr (checksum key));
    h ← index (nodes hr)
          (if bool_decide (idx = Z.of_nat (length (nodes hr))) then 0 else idx);
    mret (default EmptyString (nodeMap hr !! h)).
Proof. reflexivity. Qed.

(** On a sorted, non-empty entry sequence the lookup lands on the first
    entry at or above the key's hash, or on the entry at index 0 when
    there is none. *)
Lemma GetNode_sorted hr key :
  Sorted Z.le (nodes hr) → nodes hr ≠ [] →
  ∃ h, GetNode hr key = Returned (default EmptyString (nodeMap hr !! h))
    ∧ ((∃ i : nat, nodes hr !! i = Some h ∧ checksum key ≤ h
          ∧ ∀ (j : nat) h', (j < i)%nat → nodes hr !! j = Some h' →
              h' < checksum key)
       ∨ ((∀ h', h' ∈ nodes hr → h' < checksum key)
          ∧ nodes hr !! 0%nat = Some h)).
Proof.
  intros Hs Hne. rewrite GetNode_unfold.
  set (n := Z.of_nat (length (nodes hr))).
  assert (0 < n) as Hn by (destruct (nodes hr); [done|simpl in n; lia]).
  destruct (Search_least n (at_least hr (checksum key))
              (at_least_val hr (checksum key)))
    as (r & -> & Hr & Hlo & Hhi).
  { apply at_least_total. }
  { intros a b. by apply at_least_mono. }
  { lia. }
  cbn [mbind outcome_bind]. case_bool_decide as Hrn.
  - (* no entry reaches the hash: wrap around to index 0 *)
    destruct (lookup_lt_is_Some_2 (nodes hr) 0) as [h Hh]; [lia|].
    exists h. rewrite (index_in_range _ _ h) by done. split; [done|].
    right. split; [|done]. intros h' (k & Hk)%list_elem_of_lookup_1.
    specialize (Hlo (Z.of_nat k)). unfold at_least_val in Hlo.
    rewrite Nat2Z.id, Hk in Hlo. apply lookup_lt_Some in Hk as Hlt.
    apply bool_decide_eq_false in Hlo; lia.
  - (* the first entry at or above the hash *)
    destruct (lookup_lt_is_Some_2 (nodes hr) (Z.to_nat r)) as [h Hh]; [lia|].
    exists h. rewrite (index_in_range _ _ h) by (done || lia).
    split; [done|]. left. exists (Z.to_nat r). split; [done|]. split.
    + specialize (Hhi r). unfold at_least_val in Hhi. rewrite Hh in Hhi.
      apply bool_decide_eq_true in Hhi; lia.
    + intros j h' Hj Hh'. specialize (Hlo (Z.of_nat j)).
      unfold at_least_val in Hlo. rewrite Nat2Z.id, Hh' in Hlo.
      apply bool_decide_eq_false in Hlo; lia.
Qed.

Lemma GetNode_empty hr key :
  nodes hr = [] → GetNode hr key = Panicked IndexOutOfRange.
Proof.
  intros Hnil. rewrite GetNode_unfold, Hnil. simpl.
  unfold sort.Search. rewrite Search_loop_done by done.
  reflexivity.
Qed.

End lookup.

(** ** The router: one handler call, step by step *)
Section router.
Import main.

Ltac run_handler :=
  unfold mbind, M_bind, lift, mret, M_ret,
    grpc_Dial, client_Put, client_Get, client_Delete, conn_Close,
    store_Put, store_Get, store_Delete, after_events;
  simpl.

Lemma Put_run T s ctx req w :
  Put T s ctx req w =
    match hash.GetNode (hashRing s) (pb.PutRequest_Key req) with
    | Panicked p => (Panicked p, w)
    | Returned owner =>
        if decide (owner = currentNode s) then
          (Returned (Some {| pb.PutResponse_Success := true |}, None),
           {| the_store := store.Put (the_store w) (pb.PutRequest_Key req)
                             (pb.PutRequest_Value req);
              net_log := net_log w |})
        else
          match dial_error T (net_log w) owner with
          | Some err =>
              (Returned (None, Some err), after_events w [EvDial owner])
          | None =>
              (Returned (remote_Put T (net_log w ++ [EvDial owner]) owner ctx req),
               after_events w [EvDial owner; EvPut owner ctx req; EvClose owner])
          end
    end.
Proof.
  unfold Put. run_handler.
  destruct (hash.GetNode _ _) as [owner|p]; [|done].
  case_bool_decide; case_decide; try done.
  destruct (dial_error _ _ _); run_handler; [done|].
  by rewrite <- !app_assoc.
Qed.

Lemma Get_run T s ctx req w :
  Get T s ctx req w =
    match hash.GetNode (hashRing s) (pb.GetRequest_Key req) with
    | Panicked p => (Panicked p, w)
    | Returned owner =>
        if decide (owner = currentNode s) then
          (Returned
             (Some {| pb.GetResponse_Value :=
                        (store.Get (the_store w) (pb.GetRequest_Key req)).1.1;
                      pb.GetResponse_Found :=
                        (store.Get (the_store w) (pb.GetRequest_Key req)).1.2 |},
              None),
           w)
        else
          match dial_error T (net_log w) owner with
          | Some err =>
              (Returned (None, Some err), after_events w [EvDial owner])
          | None =>
              (Returned (remote_Get T (net_log w ++ [EvDial owner]) owner ctx req),
               after_events w [EvDial owner; EvGet owner ctx req; EvClose owner])
          end
    end.
Proof.
  unfold Get. run_handler.
  destruct (hash.GetNode _ _) as [owner|p]; [|done].
  case_bool_decide; case_decide; try done.
  - destruct (dial_error _ _ _); run_handler; [done|].
    by rewrite <- !app_assoc.
  - destruct w as [st log]. unfold store.Get. simpl.
    by destruct (store.data st !! _).
Qed.

Lemma Delete_run T s ctx req w :
  Delete T s ctx req w =
    match hash.GetNode (hashRing s) (pb.DeleteRequest_Key req) with
    | Panicked p => (Panicked p, w)
    | Returned owner =>
        if decide (owner = currentNode s) then
          (Returned (Some {| pb.DeleteResponse_Success := true |}, None),
           {| the_store := store.Delete (the_store w) (pb.DeleteRequest_Key req);
              net_log := net_log w |})
        else
          match dial_error T (net_log w) owner with
          | Some err =>
              (Returned (None, Some err), after_events w [EvDial owner])
          | None =>
              (Returned (remote_Delete T (net_log w ++ [EvDial owner]) owner ctx req),
               after_events w [EvDial owner; EvDelete owner ctx req; EvClose owner])
          end
    end.
Proof.
  unfold Delete. run_handler.
  destruct (hash.GetNode _ _) as [owner|p]; [|done].
  case_bool_decide; case_decide; try done.
  destruct (dial_error _ _ _); run_handler; [done|].
  by rewrite <- !app_assoc.
Qed.

End router.

(** ** The ring: claims *)
Section ring_claims.
Import hash.

(** C1.  On every non-empty ring produced by [NewHashRing] and [AddNode],
    and for every key [K], [GetNode] returns the identifier that the map
    holds for the first entry whose hash is at or above the crc32 hash of
    [K]; when the hash of [K] is above every entry, it returns the
    identifier held for the entry at index 0. *)
Theorem GetNode_first_entry_at_or_above (hr : HashRing) (K : string) :
  reachable hr → nodes hr ≠ [] →
  ∃ h node,
    GetNode hr K = Returned node ∧ nodeMap hr !! h = Some node
    ∧ ((∃ i : nat, nodes hr !! i = Some h ∧ checksum K ≤ h
          ∧ ∀ (j : nat) h', (j < i)%nat → nodes hr !! j = Some h' →
              h' < checksum K)
       ∨ ((∀ h', h' ∈ nodes hr → h' < checksum K)
          ∧ nodes hr !! 0%nat = Some h)).
Proof.
  intros (R & ns & ->)%reachable_build Hne.
  destruct (GetNode_sorted (build R ns) K (build_sorted R ns) Hne)
    as (h & Hget & Hh).
  assert (h ∈ nodes (build R ns)) as Hin.
  { destruct Hh as [(i & Hi & _)|[_ H0]]; by eapply list_elem_of_lookup_2. }
  destruct (build_owner R ns h Hin) as (node & _ & _ & _ & _ & Hmap).
  exists h, node. rewrite Hget, Hmap. done.
Qed.

(** C3, as the code has it.  On a ring without entries [GetNode] returns
    no identifier for any key: reading the entry at index 0 of the empty
    sequence is out of range, and the call ends in that run-time panic.
    The handlers of a server with such a ring end in the same panic, with
    the store and the network as they were. *)
Theorem GetNode_empty_ring_panics (hr : HashRing) (K : string) :
  nodes hr = [] →
  GetNode hr K = Panicked IndexOutOfRange
  ∧ ∀ T s ctx V w,
      main.hashRing s = hr →
      main.Put T s ctx {| pb.PutRequest_Key := K; pb.PutRequest_Value := V |} w
        = (Panicked IndexOutOfRange, w)
      ∧ main.Get T s ctx {| pb.GetRequest_Key := K |} w
        = (Panicked IndexOutOfRange, w)
      ∧ main.Delete T s ctx {| pb.DeleteRequest_Key := K |} w
        = (Panicked IndexOutOfRange, w).
Proof.
  intros Hnil. split; [by apply GetNode_empty|].
  intros T s ctx V w Hs.
  rewrite Put_run, Get_run, Delete_run. simpl.
  by rewrite Hs, GetNode_empty.
Qed.

(** C4.  After [NewHashRing R] and adding the nodes [ns], the entry
    sequence holds exactly the hashes of the virtual nodes [0 .. R-1] of
    every added node, [R] for each node and [R * length ns] in all; every
    entry is the hash of an added node's identifier concatenated with a
    virtual index in [0, R) and is mapped to such a node; and the entry
    sequence is sorted in increasing order after every [AddNode]. *)
Theorem ring_entries_after_adds (R : Z) (ns : list string) :
  nodes (build R ns) ≡ₚ ns ≫= vnode_hashes R
  ∧ (∀ node, length (vnode_hashes R node) = Z.to_nat R)
  ∧ length (nodes (build R ns)) = (Z.to_nat R * length ns)%nat
  ∧ (∀ h, h ∈ nodes (build R ns) →
       ∃ node i, node ∈ ns ∧ 0 ≤ i < R ∧ h = vnode_hash node i
                 ∧ nodeMap (build R ns) !! h = Some node)
  ∧ (∀ hr node, Sorted Z.le (nodes (AddNode hr node))).
Proof.
  split_and!.
  - apply build_perm.
  - apply length_vnode_hashes.
  - rewrite build_perm. induction ns as [|node ns' IH]; [simpl; lia|].
    rewrite bind_cons, length_app, length_vnode_hashes, IH. simpl. lia.
  - apply build_owner.
  - apply AddNode_sorted.
Qed.

(** C5.  On every non-empty ring built by [AddNode] calls, [GetNode]
    returns, for every key, one of the nodes that were added. *)
Theorem GetNode_returns_added_node (R : Z) (ns : list string) (K : string) :
  nodes (build R ns) ≠ [] →
  ∃ node, GetNode (build R ns) K = Returned node ∧ node ∈ ns.
Proof.
  intros Hne.
  destruct (GetNode_sorted (build R ns) K (build_sorted R ns) Hne)
    as (h & Hget & Hh).
  assert (h ∈ nodes (build R ns)) as Hin.
  { destruct Hh as [(i & Hi & _)|[_ H0]]; by eapply list_elem_of_lookup_2. }
  destruct (build_owner R ns h Hin) as (node & _ & Hnode & _ & _ & Hmap).
  exists node. by rewrite Hget, Hmap.
Qed.

(** C9.  Adding a node that is already in the ring is not a no-op: its
    [R] hashes are appended once more, so that each of them occurs in the
    entry sequence one more time than before, hence at least twice; and
    exactly twice when the entries were pairwise different before, that
    is, on the second addition of the node to a ring without hash
    collisions. *)
Theorem AddNode_again_duplicates (R : Z) (ns : list string) (node : string) :
  node ∈ ns →
  nodes (AddNode (build R ns) node)
    ≡ₚ nodes (build R ns) ++ vnode_hashes R node
  ∧ length (nodes (AddNode (build R ns) node))
    = (length (nodes (build R ns)) + Z.to_nat R)%nat
  ∧ (∀ h, count_occ Z.eq_dec (nodes (AddNode (build R ns) node)) h
          = (count_occ Z.eq_dec (nodes (build R ns)) h
             + count_occ Z.eq_dec (vnode_hashes R node) h)%nat)
  ∧ (∀ i, 0 ≤ i < R →
       (2 ≤ count_occ Z.eq_dec (nodes (AddNode (build R ns) node))
              (vnode_hash node i))%nat)
  ∧ (NoDup (ns ≫= vnode_hashes R) →
     ∀ i, 0 ≤ i < R →
       count_occ Z.eq_dec (nodes (AddNode (build R ns) node))
         (vnode_hash node i) = 2%nat).
Proof.
  intros Hin.
  assert (nodes (AddNode (build R ns) node)
            ≡ₚ nodes (build R ns) ++ vnode_hashes R node) as Hperm.
  { by rewrite AddNode_perm, build_replication. }
  assert (∀ h, count_occ Z.eq_dec (nodes (AddNode (build R ns) node)) h
          = (count_occ Z.eq_dec (nodes (build R ns)) h
             + count_occ Z.eq_dec (vnode_hashes R node) h)%nat) as Hcount.
  { intros h. rewrite (Permutation_count_occ Z.eq_dec) in Hperm.
    by rewrite Hperm, count_occ_app. }
  assert (∀ i, 0 ≤ i < R → vnode_hash node i ∈ vnode_hashes R node) as Hv.
  { intros i Hi. apply elem_of_vnode_hashes. by exists i. }
  assert (∀ i, 0 ≤ i < R → vnode_hash node i ∈ ns ≫= vnode_hashes R) as Hb.
  { intros i Hi. apply list_elem_of_bind. exists node. auto. }
  split_and!; [done| |done| |].
  - by rewrite Hperm, length_app, length_vnode_hashes.
  - intros i Hi. rewrite Hcount.
    specialize (Hv i Hi). specialize (Hb i Hi). rewrite <- build_perm in Hb.
    apply list_elem_of_In, (count_occ_In Z.eq_dec) in Hv, Hb. lia.
  - intros Hnd i Hi. rewrite Hcount.
    pose proof (build_perm R ns) as Hp.
    rewrite (Permutation_count_occ Z.eq_dec) in Hp. rewrite Hp.
    rewrite (count_occ_NoDup _ _ Hnd (Hb i Hi)).
    by rewrite (count_occ_NoDup _ _ (NoDup_vnode_hashes R ns node Hnd Hin)
                  (Hv i Hi)).
Qed.

End ring_claims.

(** ** The local store *)
Section store_claims.
Import store.

Lemma Get_store_unchanged kvs K : (Get kvs K).2 = kvs.
Proof. unfold Get. by destruct (data kvs !! K). Qed.

Lemma Get_lookup kvs K :
  (Get kvs K).1 = match data kvs !! K with
                  | Some V => (V, true)
                  | None => (EmptyString, false)
                  end.
Proof. unfold Get. by destruct (data kvs !! K). Qed.

Lemma Delete_absent kvs K : data kvs !! K = None → Delete kvs K = kvs.
Proof. intros HK. destruct kvs as [m]. unfold Delete. simpl in *. by rewrite delete_id. Qed.

Lemma Delete_idempotent kvs K : Delete (Delete kvs K) K = Delete kvs K.
Proof. apply Delete_absent. simpl. apply lookup_delete_eq. Qed.

(** C7.  For a key [K] that the store does not hold, [Get] answers with
    [found = false] (and the empty value), and [Delete] goes through and
    leaves the store as it was, however often it is repeated.  Neither
    method has an error result; the handlers of the owning node reply
    with the response and a [nil] error. *)
Theorem absent_key_is_a_normal_result (kvs : KeyValueStore) (K : string) :
  data kvs !! K = None →
  Get kvs K = ((EmptyString, false), kvs)
  ∧ Delete kvs K = kvs
  ∧ Delete (Delete kvs K) K = kvs
  ∧ ∀ T s ctx log,
      hash.GetNode (main.hashRing s) K = Returned (main.currentNode s) →
      main.Get T s ctx {| pb.GetRequest_Key := K |}
          {| main.the_store := kvs; main.net_log := log |}
        = (Returned (Some {| pb.GetResponse_Value := EmptyString;
                             pb.GetResponse_Found := false |}, None),
           {| main.the_store := kvs; main.net_log := log |})
      ∧ main.Delete T s ctx {| pb.DeleteRequest_Key := K |}
          {| main.the_store := kvs; main.net_log := log |}
        = (Returned (Some {| pb.DeleteResponse_Success := true |}, None),
           {| main.the_store := kvs; main.net_log := log |}).
Proof.
  intros HK. split_and!.
  - unfold Get. by rewrite HK.
  - by apply Delete_absent.
  - rewrite (Delete_absent kvs K HK). by apply Delete_absent.
  - intros T s ctx log Hown. rewrite Get_run, Delete_run. simpl.
    rewrite Hown, !decide_True by done.
    rewrite Delete_absent by done. unfold Get. by rewrite HK.
Qed.

(** C8.  In every store state, [Get K] right after [Put K V] returns
    [(V, true)], and [Get K] right after [Delete K] returns
    [found = false]. *)
Theorem put_get_delete_round_trip (kvs : KeyValueStore) (K V : string) :
  Get (Put kvs K V) K = ((V, true), Put kvs K V)
  ∧ Get (Delete kvs K) K = ((EmptyString, false), Delete kvs K)
  ∧ Get (Delete (Put kvs K V) K) K
    = ((EmptyString, false), Delete (Put kvs K V) K)
  ∧ ∀ T s ctx log,
      hash.GetNode (main.hashRing s) K = Returned (main.currentNode s) →
      let w0 := {| main.the_store := kvs; main.net_log := log |} in
      let w1 := (main.Put T s ctx {| pb.PutRequest_Key := K;
                                     pb.PutRequest_Value := V |} w0).2 in
      let w2 := (main.Delete T s ctx {| pb.DeleteRequest_Key := K |} w1).2 in
      main.Get T s ctx {| pb.GetRequest_Key := K |} w1
        = (Returned (Some {| pb.GetResponse_Value := V;
                             pb.GetResponse_Found := true |}, None), w1)
      ∧ main.Get T s ctx {| pb.GetRequest_Key := K |} w2
        = (Returned (Some {| pb.GetResponse_Value := EmptyString;
                             pb.GetResponse_Found := false |}, None), w2).
Proof.
  split_and!.
  - unfold Get, Put. simpl. by rewrite lookup_insert_eq.
  - unfold Get, Delete. simpl. by rewrite lookup_delete_eq.
  - unfold Get, Delete. simpl. by rewrite lookup_delete_eq.
  - intros T s ctx log Hown. simpl.
    rewrite !Get_run, Delete_run, Put_run. simpl.
    rewrite Hown, !decide_True by done. simpl.
    unfold Get. simpl. by rewrite lookup_insert_eq, lookup_delete_eq.
Qed.

(** C10.  [Put K V] binds [K] to [V] and leaves the binding of every
    other key as it was; [Delete K] unbinds [K] and leaves the binding of
    every other key as it was; [Get K] leaves the whole store as it
    was. *)
Theorem store_operations_frame (kvs : KeyValueStore) (K V K' : string) :
  data (Put kvs K V) !! K'
    = (if decide (K = K') then Some V else data kvs !! K')
  ∧ data (Delete kvs K) !! K'
    = (if decide (K = K') then None else data kvs !! K')
  ∧ (Get kvs K).2 = kvs.
Proof.
  split_and!.
  - apply lookup_insert.
  - apply lookup_delete.
  - apply Get_store_unchanged.
Qed.

End store_claims.

(** ** The router: claims *)
Section router_claims.
Import main.

(** C2.  For [Put], [Get] and [Delete] alike: with [owner] the node that
    the ring returns for the key, a handler on the owner itself performs
    the operation on the local store, replies with its result and sends
    nothing; a handler on any other node leaves its store alone, opens
    one connection to [owner], sends the request it received (same
    context, same payload) once, closes the connection, and replies with
    exactly what the owner answered. *)
Theorem handlers_serve_locally_or_forward
    (T : Transport) (s : Server) (ctx : Context) (w : World)
    (K V : string) (owner : string) :
  hash.GetNode (hashRing s) K = Returned owner →
  let preq := {| pb.PutRequest_Key := K; pb.PutRequest_Value := V |} in
  let greq := {| pb.GetRequest_Key := K |} in
  let dreq := {| pb.DeleteRequest_Key := K |} in
  (owner = currentNode s →
     Put T s ctx preq w
       = (Returned (Some {| pb.PutResponse_Success := true |}, None),
          {| the_store := store.Put (the_store w) K V;
             net_log := net_log w |})
     ∧ Get T s ctx greq w
       = (Returned (Some {| pb.GetResponse_Value := (store.Get (the_store w) K).1.1;
                            pb.GetResponse_Found := (store.Get (the_store w) K).1.2 |},
                    None), w)
     ∧ Delete T s ctx dreq w
       = (Returned (Some {| pb.DeleteResponse_Success := true |}, None),
          {| the_store := store.Delete (the_store w) K;
             net_log := net_log w |}))
  ∧ (owner ≠ currentNode s →
     dial_error T (net_log w) owner = None →
     Put T s ctx preq w
       = (Returned (remote_Put T (net_log w ++ [EvDial owner]) owner ctx preq),
          after_events w [EvDial owner; EvPut owner ctx preq; EvClose owner])
     ∧ Get T s ctx greq w
       = (Returned (remote_Get T (net_log w ++ [EvDial owner]) owner ctx greq),
          after_events w [EvDial owner; EvGet owner ctx greq; EvClose owner])
     ∧ Delete T s ctx dreq w
       = (Returned (remote_Delete T (net_log w ++ [EvDial owner]) owner ctx dreq),
          after_events w [EvDial owner; EvDelete owner ctx dreq; EvClose owner])).
Proof.
  intros Hown preq greq dreq.
  rewrite Put_run, Get_run, Delete_run. subst preq greq dreq. simpl.
  rewrite Hown. split.
  - intros Heq. by rewrite !decide_True by done.
  - intros Hne Hdial. by rewrite !decide_False, Hdial by done.
Qed.

(** C6.  For [Put], [Get] and [Delete] alike, on a node that is not the
    owner of the key: when the connection to the owner cannot be
    established, the handler replies with that error after the one dial,
    and when the remote call answers with an error, the handler replies
    with that very answer after the one call.  In both cases nothing else
    is sent (no second attempt, no other node) and the local store is as
    it was. *)
Theorem forwarding_failure_reaches_caller
    (T : Transport) (s : Server) (ctx : Context) (w : World)
    (K V : string) (owner : string) :
  hash.GetNode (hashRing s) K = Returned owner →
  owner ≠ currentNode s →
  let preq := {| pb.PutRequest_Key := K; pb.PutRequest_Value := V |} in
  let greq := {| pb.GetRequest_Key := K |} in
  let dreq := {| pb.DeleteRequest_Key := K |} in
  (∀ err, dial_error T (net_log w) owner = Some err →
     Put T s ctx preq w
       = (Returned (None, Some err), after_events w [EvDial owner])
     ∧ Get T s ctx greq w
       = (Returned (None, Some err), after_events w [EvDial owner])
     ∧ Delete T s ctx dreq w
       = (Returned (None, Some err), after_events w [EvDial owner]))
  ∧ (dial_error T (net_log w) owner = None →
     (∀ resp err,
        remote_Put T (net_log w ++ [EvDial owner]) owner ctx preq
          = (resp, Some err) →
        Put T s ctx preq w
          = (Returned (resp, Some err),
             after_events w [EvDial owner; EvPut owner ctx preq; EvClose owner]))
     ∧ (∀ resp err,
        remote_Get T (net_log w ++ [EvDial owner]) owner ctx greq
          = (resp, Some err) →
        Get T s ctx greq w
          = (Returned (resp, Some err),
             after_events w [EvDial owner; EvGet owner ctx greq; EvClose owner]))
     ∧ (∀ resp err,
        remote_Delete T (net_log w ++ [EvDial owner]) owner ctx dreq
          = (resp, Some err) →
        Delete T s ctx dreq w
          = (Returned (resp, Some err),
             after_events w [EvDial owner; EvDelete owner ctx dreq; EvClose owner])))
  ∧ ∀ evs, the_store (after_events w evs) = the_store w.
Proof.
  intros Hown Hne preq greq dreq.
  rewrite Put_run, Get_run, Delete_run. subst preq greq dreq. simpl.
  rewrite Hown, !decide_False by done. split_and!.
  - intros err Hdial. by rewrite Hdial.
  - intros Hdial. rewrite Hdial.
    split_and!; intros resp err Hreply; by rewrite Hreply.
  - done.
Qed.

End router_claims.

(** ** The claims on the cluster of [main()]

    Three nodes, three virtual nodes each; the current node is
    [localhost:50051].  The key ["a"] belongs to the current node, the key
    ["mykey"] to [localhost:50053], and the hash of ["k102"] is above every
    entry of the ring. *)
Section main_cluster.
Import main hash.

Example main_ring_entries :
  nodes main_hashRing =
    [1334402449; 1452436688; 1688473170; 2326425470; 2709994685;
     3097234940; 3483057514; 3598715947; 4255997928].
Proof. vm_compute. reflexivity. Qed.

Example main_ring_wraps_around :
  checksum "k102" = 4284172234
  ∧ GetNode main_hashRing "k102" = Returned "localhost:50052"%string
  ∧ nodeMap main_hashRing !! 1334402449 = Some "localhost:50052"%string.
Proof. vm_compute. auto. Qed.

Example readded_node_entries :
  nodes (build 3 ["localhost:50051"; "localhost:50051"]%string) =
    [1688473170; 1688473170; 2326425470; 2326425470; 4255997928; 4255997928].
Proof. vm_compute. reflexivity. Qed.

Lemma GetNode_first_entry_at_or_above_witness :
  reachable main_hashRing ∧ nodes main_hashRing ≠ []
  ∧ ∃ h node,
      GetNode main_hashRing "mykey" = Returned node
      ∧ nodeMap main_hashRing !! h = Some node
      ∧ ((∃ i : nat, nodes main_hashRing !! i = Some h
            ∧ checksum "mykey" ≤ h
            ∧ ∀ (j : nat) h', (j < i)%nat →
                nodes main_hashRing !! j = Some h' → h' < checksum "mykey")
         ∨ ((∀ h', h' ∈ nodes main_hashRing → h' < checksum "mykey")
            ∧ nodes main_hashRing !! 0%nat = Some h)).
Proof.
  assert (reachable main_hashRing) as Hreach.
  { exact (build_reachable 3 main_nodes). }
  assert (nodes main_hashRing ≠ []) as Hne.
  { vm_compute. discriminate. }
  split; [exact Hreach|]. split; [exact Hne|].
  exact (GetNode_first_entry_at_or_above main_hashRing "mykey" Hreach Hne).
Defined.

(** C3, as the spec states it, fails: on the empty ring the lookup of
    ["mykey"] ends in the index-out-of-range panic. *)
Lemma GetNode_empty_ring_is_out_of_range :
  GetNode (NewHashRing 3) "mykey" = Panicked IndexOutOfRange.
Proof. vm_compute. reflexivity. Qed.

Lemma GetNode_empty_ring_panics_witness :
  nodes (build 0 ["localhost:50051"%string]) = []
  ∧ GetNode (build 0 ["localhost:50051"%string]) "mykey"
    = Panicked IndexOutOfRange
  ∧ Get answering_cluster
      {| hashRing := build 0 ["localhost:50051"%string];
         currentNode := "localhost:50051";
         main.nodes := ["localhost:50051"%string] |}
      0%N {| pb.GetRequest_Key := "mykey" |} main_world
    = (Panicked IndexOutOfRange, main_world).
Proof.
  assert (nodes (build 0 ["localhost:50051"%string]) = []) as Hnil.
  { vm_compute. reflexivity. }
  split; [exact Hnil|].
  pose proof (GetNode_empty_ring_panics _ "mykey" Hnil) as [Hget Hsrv].
  split; [exact Hget|].
  exact (proj1 (proj2 (Hsrv answering_cluster
           {| hashRing := build 0 ["localhost:50051"%string];
              currentNode := "localhost:50051";
              main.nodes := ["localhost:50051"%string] |}
           0%N "" main_world eq_refl))).
Defined.

Lemma GetNode_returns_added_node_witness :
  nodes (build 3 main_nodes) ≠ []
  ∧ ∃ node, GetNode (build 3 main_nodes) "mykey" = Returned node
            ∧ node ∈ main_nodes.
Proof.
  assert (nodes (build 3 main_nodes) ≠ []) as Hne.
  { vm_compute. discriminate. }
  split; [exact Hne|].
  exact (GetNode_returns_added_node 3 main_nodes "mykey" Hne).
Defined.

Lemma AddNode_again_duplicates_witness :
  "localhost:50051"%string ∈ ["localhost:50051"%string]
  ∧ NoDup (["localhost:50051"%string] ≫= vnode_hashes 3)
  ∧ ∀ i, 0 ≤ i < 3 →
      count_occ Z.eq_dec
        (nodes (AddNode (build 3 ["localhost:50051"%string])
                  "localhost:50051"))
        (vnode_hash "localhost:50051" i) = 2%nat.
Proof.
  assert ("localhost:50051"%string ∈ ["localhost:50051"%string]) as Hin.
  { constructor. }
  assert (NoDup (["localhost:50051"%string] ≫= vnode_hashes 3)) as Hnd.
  { apply (bool_decide_unpack _). vm_compute. exact I. }
  split; [exact Hin|]. split; [exact Hnd|].
  exact (proj2 (proj2 (proj2 (proj2
           (AddNode_again_duplicates 3 _ "localhost:50051" Hin)))) Hnd).
Defined.

End main_cluster.

Section main_cluster_handlers.
Import main.

Example main_owners :
  hash.GetNode main_hashRing "a" = Returned "localhost:50051"%string
  ∧ hash.GetNode main_hashRing "mykey" = Returned "localhost:50053"%string.
Proof. vm_compute. auto. Qed.

Lemma handlers_serve_locally_or_forward_witness :
  (hash.GetNode (hashRing main_server) "a" = Returned "localhost:50051"%string
   ∧ Put answering_cluster main_server 0%N
       {| pb.PutRequest_Key := "a"; pb.PutRequest_Value := "1" |} main_world
     = (Returned (Some {| pb.PutResponse_Success := true |}, None),
        {| the_store := store.Put store.NewKeyValueStore "a" "1";
           net_log := [] |}))
  ∧ (hash.GetNode (hashRing main_server) "mykey"
       = Returned "localhost:50053"%string
     ∧ "localhost:50053"%string ≠ currentNode main_server
     ∧ dial_error answering_cluster (net_log main_world) "localhost:50053"
       = None
     ∧ Get answering_cluster main_server 0%N
         {| pb.GetRequest_Key := "mykey" |} main_world
       = (Returned (Some {| pb.GetResponse_Value := "myvalue";
                            pb.GetResponse_Found := true |}, None),
          after_events main_world
            [EvDial "localhost:50053";
             EvGet "localhost:50053" 0%N {| pb.GetRequest_Key := "mykey" |};
             EvClose "localhost:50053"])).
Proof.
  assert (hash.GetNode (hashRing main_server) "a"
          = Returned "localhost:50051"%string) as Ha.
  { vm_compute. reflexivity. }
  assert (hash.GetNode (hashRing main_server) "mykey"
          = Returned "localhost:50053"%string) as Hk.
  { vm_compute. reflexivity. }
  assert ("localhost:50053"%string ≠ currentNode main_server) as Hne.
  { simpl. discriminate. }
  split.
  - split; [exact Ha|].
    exact (proj1 (proj1 (handlers_serve_locally_or_forward answering_cluster
             main_server 0%N main_world "a" "1" _ Ha) eq_refl)).
  - split; [exact Hk|]. split; [exact Hne|]. split; [reflexivity|].
    exact (proj1 (proj2 (proj2 (handlers_serve_locally_or_forward
             answering_cluster main_server 0%N main_world "mykey" "myvalue"
             _ Hk) Hne eq_refl))).
Defined.

Lemma forwarding_failure_reaches_caller_witness :
  hash.GetNode (hashRing main_server) "mykey" = Returned "localhost:50053"%string
  ∧ "localhost:50053"%string ≠ currentNode main_server
  ∧ (dial_error unreachable_cluster (net_log main_world) "localhost:50053"
       = Some "connection refused"%string
     ∧ Put unreachable_cluster main_server 0%N
         {| pb.PutRequest_Key := "mykey"; pb.PutRequest_Value := "myvalue" |}
         main_world
       = (Returned (None, Some "connection refused"%string),
          after_events main_world [EvDial "localhost:50053"]))
  ∧ (dial_error failing_cluster (net_log main_world) "localhost:50053" = None
     ∧ remote_Put failing_cluster
         (net_log main_world ++ [EvDial "localhost:50053"])
         "localhost:50053" 0%N
         {| pb.PutRequest_Key := "mykey"; pb.PutRequest_Value := "myvalue" |}
       = (None, Some "unavailable"%string)
     ∧ Put failing_cluster main_server 0%N
         {| pb.PutRequest_Key := "mykey"; pb.PutRequest_Value := "myvalue" |}
         main_world
       = (Returned (None, Some "unavailable"%string),
          after_events main_world
            [EvDial "localhost:50053";
             EvPut "localhost:50053" 0%N
               {| pb.PutRequest_Key := "mykey";
                  pb.PutRequest_Value := "myvalue" |};
             EvClose "localhost:50053"])).
Proof.
  assert (hash.GetNode (hashRing main_server) "mykey"
          = Returned "localhost:50053"%string) as Hk.
  { vm_compute. reflexivity. }
  assert ("localhost:50053"%string ≠ currentNode main_server) as Hne.
  { simpl. discriminate. }
  split; [exact Hk|]. split; [exact Hne|]. split.
  - split; [reflexivity|].
    exact (proj1 (proj1 (forwarding_failure_reaches_caller unreachable_cluster
             main_server 0%N main_world "mykey" "myvalue" _ Hk Hne)
             _ eq_refl)).
  - split; [reflexivity|]. split; [reflexivity|].
    exact (proj1 (proj1 (proj2 (forwarding_failure_reaches_caller
             failing_cluster main_server 0%N main_world "mykey" "myvalue"
             _ Hk Hne)) eq_refl) _ _ eq_refl).
Defined.

Lemma absent_key_is_a_normal_result_witness :
  store.data store.NewKeyValueStore !! "a"%string = None
  ∧ hash.GetNode (hashRing main_server) "a" = Returned (currentNode main_server)
  ∧ store.Get store.NewKeyValueStore "a"
    = ((EmptyString, false), store.NewKeyValueStore)
  ∧ store.Delete store.NewKeyValueStore "a" = store.NewKeyValueStore
  ∧ Delete answering_cluster main_server 0%N
      {| pb.DeleteRequest_Key := "a" |} main_world
    = (Returned (Some {| pb.DeleteResponse_Success := true |}, None),
       main_world).
Proof.
  assert (store.data store.NewKeyValueStore !! "a"%string = None) as Habs.
  { reflexivity. }
  assert (hash.GetNode (hashRing main_server) "a"
          = Returned (currentNode main_server)) as Ha.
  { vm_compute. reflexivity. }
  pose proof (absent_key_is_a_normal_result store.NewKeyValueStore "a" Habs)
    as (Hget & Hdel & _ & Hsrv).
  split; [exact Habs|]. split; [exact Ha|]. split; [exact Hget|].
  split; [exact Hdel|].
  exact (proj2 (Hsrv answering_cluster main_server 0%N [] Ha)).
Defined.

Lemma put_get_delete_round_trip_witness :
  hash.GetNode (hashRing main_server) "a" = Returned (currentNode main_server)
  ∧ Get answering_cluster main_server 0%N {| pb.GetRequest_Key := "a" |}
      (Put answering_cluster main_server 0%N
         {| pb.PutRequest_Key := "a"; pb.PutRequest_Value := "1" |}
         main_world).2
    = (Returned (Some {| pb.GetResponse_Value := "1";
                         pb.GetResponse_Found := true |}, None),
       (Put answering_cluster main_server 0%N
          {| pb.PutRequest_Key := "a"; pb.PutRequest_Value := "1" |}
          main_world).2).
Proof.
  assert (hash.GetNode (hashRing main_server) "a"
          = Returned (currentNode main_server)) as Ha.
  { vm_compute. reflexivity. }
  split; [exact Ha|].
  exact (proj1 (proj2 (proj2 (proj2
           (put_get_delete_round_trip store.NewKeyValueStore "a" "1")))
           answering_cluster main_server 0%N [] Ha)).
Defined.

End main_cluster_handlers.


(** * Further properties of the code *)

(** ** The ring seen by values: the clockwise successor *)
Section ring_successor.
Import hash.

Lemma successor_unique l x h1 h2 :
  successor l x h1 → successor l x h2 → h1 = h2.
Proof.
  intros [Hin1 [[Hx1 Hl1]|[Hb1 Hm1]]] [Hin2 [[Hx2 Hl2]|[Hb2 Hm2]]].
  - specialize (Hl1 _ Hin2 Hx2). specialize (Hl2 _ Hin1 Hx1). lia.
  - specialize (Hb2 _ Hin1). lia.
  - specialize (Hb1 _ Hin2). lia.
  - specialize (Hm1 _ Hin2). specialize (Hm2 _ Hin1). lia.
Qed.

Lemma successor_perm l l' x h : l ≡ₚ l' → successor l x h → successor l' x h.
Proof.
  intros Hp [Hin Hcases]. split; [by rewrite <- Hp|].
  destruct Hcases as [[Hx Hl]|[Hb Hm]]; [left|right]; split; try done;
    intros h' Hh'; rewrite <- Hp in Hh'; auto.
Qed.

Lemma successor_of_entry l x h : x ∈ l → successor l x h → h = x.
Proof.
  intros Hx [Hin [[Hxh Hl]|[Hb _]]].
  - specialize (Hl x Hx ltac:(lia)). lia.
  - specialize (Hb x Hx). lia.
Qed.

(** Adding entries moves the successor only onto one of the new entries. *)
Lemma successor_app l v x h h' :
  successor l x h → successor (l ++ v) x h' → h' = h ∨ h' ∈ v.
Proof.
  intros Hs [Hin Hcases]. apply elem_of_app in Hin as [Hin|Hin]; [|by right].
  left. apply (successor_unique l x); [|done]. split; [done|].
  destruct Hcases as [[Hx Hl]|[Hb Hm]]; [left|right]; split; try done;
    intros h'' Hh''; [apply Hl|apply Hb|apply Hm]; set_solver.
Qed.

(** [GetNode] on a sorted, non-empty ring: the identifier the map holds for
    the successor of the key's hash. *)
Lemma GetNode_successor hr K :
  Sorted Z.le (nodes hr) → nodes hr ≠ [] →
  ∃ h, successor (nodes hr) (checksum K) h
       ∧ GetNode hr K = Returned (default EmptyString (nodeMap hr !! h)).
Proof.
  intros Hs Hne.
  destruct (GetNode_sorted hr K Hs Hne) as (h & Hget & Hh).
  exists h. split; [|done].
  destruct Hh as [(i & Hi & Hx & Hlt)|[Hb H0]].
  - split; [by eapply list_elem_of_lookup_2|]. left. split; [done|].
    intros h' (j & Hj)%list_elem_of_lookup_1 Hxh'.
    destruct (decide (j < i)%nat) as [Hji|Hji].
    + specialize (Hlt j h' Hji Hj). lia.
    + apply (Sorted_lookup_le (nodes hr) i j); [done|lia|done..].
  - split; [by eapply list_elem_of_lookup_2|]. right. split; [done|].
    intros h' (j & Hj)%list_elem_of_lookup_1.
    apply (Sorted_lookup_le (nodes hr) 0 j); [done|lia|done..].
Qed.

Lemma reachable_sorted hr : reachable hr → Sorted Z.le (nodes hr).
Proof. intros (R & ns & ->)%reachable_build. apply build_sorted. Qed.

Lemma AddNode_reachable_nonempty hr node :
  nodes hr ≠ [] → nodes (AddNode hr node) ≠ [].
Proof.
  intros Hne Hnil. pose proof (AddNode_perm hr node) as Hp.
  rewrite Hnil in Hp. apply Permutation_nil in Hp.
  by apply app_eq_nil in Hp as [? _].
Qed.

End ring_successor.

(** ** The ring: further properties *)
Section ring_extras.
Import hash.

Lemma build_length R ns :
  length (nodes (build R ns)) = (Z.to_nat R * length ns)%nat.
Proof.
  rewrite build_perm. induction ns as [|node ns' IH]; [simpl; lia|].
  rewrite bind_cons, length_app, length_vnode_hashes, IH. simpl. lia.
Qed.

Lemma build_nonempty R ns : 0 < R → ns ≠ [] → nodes (build R ns) ≠ [].
Proof.
  intros HR Hns Hnil. pose proof (build_length R ns) as Hlen.
  rewrite Hnil in Hlen. destruct ns; [done|]. simpl in Hlen. nia.
Qed.

Lemma reachable_owner hr h :
  reachable hr → h ∈ nodes hr →
  ∃ node i, 0 ≤ i < replication hr ∧ h = vnode_hash node i
            ∧ nodeMap hr !! h = Some node.
Proof.
  intros (R & ns & ->)%reachable_build Hin.
  destruct (build_owner R ns h Hin) as (node & i & _ & Hi & -> & Hmap).
  exists node, i. by rewrite build_replication.
Qed.

(** The lookup on a reachable, non-empty ring, by values. *)
Lemma GetNode_reachable hr K :
  reachable hr → nodes hr ≠ [] →
  ∃ h node, successor (nodes hr) (checksum K) h
            ∧ nodeMap hr !! h = Some node
            ∧ GetNode hr K = Returned node.
Proof.
  intros Hreach Hne.
  destruct (GetNode_successor hr K (reachable_sorted hr Hreach) Hne)
    as (h & Hsucc & Hget).
  destruct (reachable_owner hr h Hreach (proj1 Hsucc))
    as (node & _ & _ & _ & Hmap).
  exists h, node. by rewrite Hget, Hmap.
Qed.

(** X1.  A ring holding a single node, built with a positive replication
    factor, answers every key with that node. *)
Theorem single_node_ring_returns_node (R : Z) (node K : string) :
  0 < R → GetNode (build R [node]) K = Returned node.
Proof.
  intros HR.
  assert (nodes (build R [node]) ≠ []) as Hne by by apply build_nonempty.
  destruct (GetNode_successor _ K (build_sorted R [node]) Hne)
    as (h & [Hin _] & ->).
  destruct (build_owner R [node] h Hin) as (node' & _ & Hnode & _ & _ & ->).
  by apply list_elem_of_singleton in Hnode as ->.
Qed.

(** X2.  With a replication factor of zero or less [AddNode] adds nothing:
    whatever nodes are added, the ring stays as [NewHashRing] made it, and
    every lookup ends in the index-out-of-range panic. *)
Theorem nonpositive_replication_ring_stays_empty
    (R : Z) (ns : list string) (K : string) :
  R ≤ 0 →
  build R ns = NewHashRing R
  ∧ GetNode (build R ns) K = Panicked IndexOutOfRange.
Proof.
  intros HR.
  assert (build R ns = NewHashRing R) as Hb.
  { induction ns as [|node ns IH] using rev_ind; [done|].
    rewrite build_snoc, IH. unfold AddNode. simpl.
    by rewrite seqZ_nil by done. }
  split; [done|]. rewrite Hb. by apply GetNode_empty.
Qed.

(** X3.  On every ring produced by [NewHashRing] and [AddNode], the slice
    of entries and the map hold the same hashes: a hash is an entry exactly
    when the map has an identifier for it. *)
Theorem entries_are_the_mapped_hashes (hr : HashRing) (h : Z) :
  reachable hr → (h ∈ nodes hr ↔ is_Some (nodeMap hr !! h)).
Proof.
  induction 1 as [R|hr node Hreach IH].
  - simpl. rewrite lookup_empty, elem_of_nil. split; [done|]. by intros [? ?].
  - rewrite AddNode_perm, AddNode_nodeMap, elem_of_app, IH.
    case_decide as Hv; split; eauto; intros [?|?]; done.
Qed.

(** X4.  A key whose hash is itself an entry of the ring is answered with
    the identifier the map holds for that entry. *)
Theorem key_on_an_entry_gets_its_node (hr : HashRing) (K : string) :
  reachable hr → checksum K ∈ nodes hr →
  ∃ node, nodeMap hr !! checksum K = Some node
          ∧ GetNode hr K = Returned node.
Proof.
  intros Hreach Hin.
  assert (nodes hr ≠ []) as Hne by (intros Hnil; rewrite Hnil in Hin; set_solver).
  destruct (GetNode_reachable hr K Hreach Hne) as (h & node & Hs & Hmap & Hget).
  apply (successor_of_entry _ _ _ Hin) in Hs as ->. by exists node.
Qed.

(** X5.  Right after [AddNode hr node], whatever [hr] held, the positions
    of the virtual nodes belong to [node]: the key made of the node's name
    followed by a virtual index below the replication factor is answered
    with [node]. *)
Theorem added_node_owns_its_positions (hr : HashRing) (node : string) (i : Z) :
  0 ≤ i < replication hr →
  GetNode (AddNode hr node) (node +:+ strconv.Itoa i) = Returned node.
Proof.
  intros Hi.
  assert (vnode_hash node i ∈ nodes (AddNode hr node)) as Hin.
  { rewrite AddNode_perm, elem_of_app. right.
    apply elem_of_vnode_hashes. by exists i. }
  assert (nodes (AddNode hr node) ≠ []) as Hne.
  { intros Hnil. rewrite Hnil in Hin. set_solver. }
  destruct (GetNode_successor _ (node +:+ strconv.Itoa i)
              (AddNode_sorted hr node) Hne) as (h & Hs & ->).
  apply (successor_of_entry _ _ _ Hin) in Hs as ->.
  rewrite AddNode_nodeMap, decide_True; [done|].
  apply elem_of_vnode_hashes. by exists i.
Qed.

(** X6.  Adding a node to a non-empty ring moves a key only to the new
    node: every key is answered as before, or with the node just added. *)
Theorem AddNode_moves_keys_only_to_new_node
    (hr : HashRing) (node K : string) :
  reachable hr → nodes hr ≠ [] →
  GetNode (AddNode hr node) K = GetNode hr K
  ∨ GetNode (AddNode hr node) K = Returned node.
Proof.
  intros Hreach Hne.
  destruct (GetNode_successor hr K (reachable_sorted hr Hreach) Hne)
    as (h & Hs & ->).
  destruct (GetNode_successor (AddNode hr node) K (AddNode_sorted hr node)
              (AddNode_reachable_nonempty hr node Hne)) as (h' & Hs' & ->).
  apply (successor_perm _ _ _ _ (AddNode_perm hr node)) in Hs'.
  rewrite AddNode_nodeMap. case_decide as Hv; [by right|left].
  by destruct (successor_app _ _ _ _ _ Hs Hs') as [->|?].
Qed.

Lemma build_nodes_perm R ns ns' :
  ns ≡ₚ ns' → nodes (build R ns) = nodes (build R ns').
Proof.
  intros Hp. apply (Sorted_unique Z.le); [apply build_sorted..|].
  by rewrite !build_perm, Hp.
Qed.

(** X7.  The entry sequence does not depend on the order in which the
    nodes were added. *)
Theorem entries_independent_of_order (R : Z) (ns ns' : list string) :
  ns ≡ₚ ns' → nodes (build R ns) = nodes (build R ns').
Proof. apply build_nodes_perm. Qed.

Lemma vnode_hashes_unique_owner R ns h n1 n2 :
  NoDup (ns ≫= vnode_hashes R) → n1 ∈ ns → n2 ∈ ns →
  h ∈ vnode_hashes R n1 → h ∈ vnode_hashes R n2 → n1 = n2.
Proof.
  induction ns as [|a ns IH]; intros Hnd H1 H2 Hh1 Hh2.
  { by apply elem_of_nil in H1. }
  rewrite bind_cons in Hnd. apply NoDup_app in Hnd as (_ & Hdisj & Hnd).
  apply elem_of_cons in H1 as [->|H1], H2 as [->|H2]; [done| | |by apply IH].
  - exfalso. apply (Hdisj h Hh1), list_elem_of_bind. by exists n2.
  - exfalso. apply (Hdisj h Hh2), list_elem_of_bind. by exists n1.
Qed.

(** X8.  When the virtual nodes of the added nodes have pairwise different
    hashes, routing does not depend on the order in which the nodes were
    added: two rings built from the same nodes in different orders answer
    every key alike. *)
Theorem routing_independent_of_order (R : Z) (ns ns' : list string) (K : string) :
  ns ≡ₚ ns' → NoDup (ns ≫= vnode_hashes R) →
  GetNode (build R ns) K = GetNode (build R ns') K.
Proof.
  intros Hp Hnd. pose proof (build_nodes_perm R ns ns' Hp) as Heq.
  destruct (decide (nodes (build R ns) = [])) as [Hnil|Hne].
  { rewrite !GetNode_empty; [done|by rewrite <- Heq|done]. }
  destruct (GetNode_successor _ K (build_sorted R ns) Hne) as (h & Hs & ->).
  destruct (GetNode_successor (build R ns') K (build_sorted R ns'))
    as (h' & Hs' & ->); [by rewrite <- Heq|].
  rewrite <- Heq in Hs'. rewrite <- (successor_unique _ _ _ _ Hs Hs').
  destruct (build_owner R ns h (proj1 Hs)) as (n1 & i1 & Hn1 & Hi1 & Hh1 & ->).
  destruct (build_owner R ns' h) as (n2 & i2 & Hn2 & Hi2 & Hh2 & ->).
  { rewrite <- Heq. apply Hs. }
  simpl. f_equal. rewrite <- Hp in Hn2.
  apply (vnode_hashes_unique_owner R ns h); try done;
    apply elem_of_vnode_hashes; eauto.
Qed.

Lemma successor_same_elements l l' x h :
  (∀ y, y ∈ l ↔ y ∈ l') → successor l x h → successor l' x h.
Proof.
  intros Hset [Hin Hcases]. split; [by apply Hset|].
  destruct Hcases as [[Hx Hl]|[Hb Hm]]; [left|right]; split; try done;
    intros h' Hh'%Hset; auto.
Qed.

(** X20.  When the virtual nodes of the added nodes have pairwise
    different hashes, adding a node that is already in the ring changes no
    answer: the duplicated entries route every key as before. *)
Theorem readding_a_node_keeps_routing
    (R : Z) (ns : list string) (node K : string) :
  node ∈ ns → NoDup (ns ≫= vnode_hashes R) →
  GetNode (AddNode (build R ns) node) K = GetNode (build R ns) K.
Proof.
  intros Hin Hnd.
  assert (∀ y, y ∈ vnode_hashes R node → y ∈ nodes (build R ns)) as Hsub.
  { intros y Hy. rewrite build_perm. apply list_elem_of_bind. by exists node. }
  assert (∀ y, y ∈ nodes (AddNode (build R ns) node)
               ↔ y ∈ nodes (build R ns)) as Hset.
  { intros y. rewrite AddNode_perm, build_replication, elem_of_app.
    naive_solver. }
  destruct (decide (nodes (build R ns) = [])) as [Hnil|Hne].
  { rewrite !GetNode_empty; [done..|].
    destruct (nodes (AddNode (build R ns) node)) as [|y l] eqn:Hl; [done|].
    assert (y ∈ nodes (build R ns)) as Hy by (apply Hset; left).
    rewrite Hnil in Hy. by apply elem_of_nil in Hy. }
  destruct (GetNode_successor _ K (build_sorted R ns) Hne) as (h & Hs & ->).
  destruct (GetNode_successor (AddNode (build R ns) node) K
              (AddNode_sorted _ node) (AddNode_reachable_nonempty _ node Hne))
    as (h' & Hs' & ->).
  apply (successor_same_elements _ _ _ _ Hset) in Hs'.
  rewrite (successor_unique _ _ _ _ Hs' Hs).
  rewrite AddNode_nodeMap, build_replication. case_decide as Hv; [|done].
  destruct (build_owner R ns h (proj1 Hs)) as (n1 & i1 & Hn1 & Hi1 & Hh1 & ->).
  simpl. f_equal. apply (vnode_hashes_unique_owner R ns h); try done.
  apply elem_of_vnode_hashes. eauto.
Qed.

(** X9.  Every entry of a ring produced by [NewHashRing] and [AddNode],
    and the hash of every key, is a 32-bit unsigned value: the conversion
    of the checksum to [int] loses nothing on a 64-bit target. *)
Theorem ring_hashes_fit_uint32 (hr : HashRing) (K : string) :
  reachable hr →
  0 ≤ checksum K < 2 ^ 32 ∧ ∀ h, h ∈ nodes hr → 0 ≤ h < 2 ^ 32.
Proof.
  intros Hreach. split; [apply checksum_uint32|].
  intros h Hin.
  destruct (reachable_owner hr h Hreach Hin) as (node & i & _ & -> & _).
  apply checksum_uint32.
Qed.

End ring_extras.

(** ** The lookup on arbitrary ring states *)
Section lookup_bounds.
Import hash.

(** The search calls its predicate inside [0, n) only, sorted input or
    not. *)
Lemma Search_loop_returns n f (m : nat) : ∀ i j,
  (∀ k, 0 ≤ k < n → ∃ b, f k = Returned b) →
  Z.to_nat (j - i) = m → 0 ≤ i → i ≤ j → j ≤ n →
  ∃ r, sort.Search_loop f i j = Returned r ∧ i ≤ r ≤ j.
Proof.
  induction m as [m IH] using lt_wf_ind. intros i j Hf Hm Hi Hij Hj.
  destruct (decide (i = j)) as [->|Hne].
  { exists j. rewrite Search_loop_done by lia. split; [done|lia]. }
  assert (i < j) as Hlt by lia.
  pose proof (midpoint_bounds i j Hlt) as Hh.
  rewrite (Search_loop_step f i j Hlt).
  destruct (Hf (Z.shiftr (i + j) 1)) as [b ->]; [lia|].
  destruct b; simpl.
  - destruct (IH (Z.to_nat (Z.shiftr (i + j) 1 - i)) ltac:(lia)
                i (Z.shiftr (i + j) 1)) as (r & -> & Hr); try done; try lia.
    exists r. split; [done|lia].
  - destruct (IH (Z.to_nat (j - (Z.shiftr (i + j) 1 + 1))) ltac:(lia)
                (Z.shiftr (i + j) 1 + 1) j) as (r & -> & Hr); try done; try lia.
    exists r. split; [done|lia].
Qed.

Lemma GetNode_nonempty_returns hr K :
  nodes hr ≠ [] → ∃ node, GetNode hr K = Returned node.
Proof.
  intros Hne. rewrite GetNode_unfold.
  set (n := Z.of_nat (length (nodes hr))).
  assert (0 < n) as Hn by (destruct (nodes hr); [done|simpl in n; lia]).
  destruct (Search_loop_returns n (at_least hr (checksum K)) (Z.to_nat (n - 0))
              0 n) as (r & Hr & Hb); try done; try lia.
  { intros k Hk. rewrite at_least_total by done. by eexists. }
  unfold sort.Search. fold n. rewrite Hr. cbn [mbind outcome_bind].
  destruct (lookup_lt_is_Some_2 (nodes hr)
              (Z.to_nat (if bool_decide (r = n) then 0 else r))) as [h Hh].
  { case_bool_decide; lia. }
  rewrite (index_in_range _ _ h); [by eexists| |done].
  case_bool_decide; lia.
Qed.

(** X23.  In every state of the ring, sorted or not and whatever the map
    holds, [GetNode] panics exactly when the ring has no entries: the
    binary search never reads outside the entry slice. *)
Theorem GetNode_panics_only_on_empty_ring (hr : HashRing) (K : string) :
  (GetNode hr K = Panicked IndexOutOfRange ↔ nodes hr = [])
  ∧ ((∃ node, GetNode hr K = Returned node) ↔ nodes hr ≠ []).
Proof.
  split; split.
  - intros Hp. destruct (decide (nodes hr = [])) as [|Hne]; [done|].
    destruct (GetNode_nonempty_returns hr K Hne) as [node Hr]. congruence.
  - apply GetNode_empty.
  - intros [node Hr] Hnil. rewrite GetNode_empty in Hr by done. done.
  - apply GetNode_nonempty_returns.
Qed.

End lookup_bounds.

(** ** The local store: sequences of operations *)
Section store_extras.
Import store.

Lemma replay_snoc kvs ops o : replay kvs (ops ++ [o]) = apply_op (replay kvs ops) o.
Proof. unfold replay. by rewrite foldl_snoc. Qed.

Lemma last_write_snoc K ops o :
  last_write K (ops ++ [o]) =
    if decide (op_key o = K)
    then Some (match o with OpPut _ value => Some value | OpDelete _ => None end)
    else last_write K ops.
Proof. unfold last_write. rewrite foldl_snoc. by destruct o. Qed.

Lemma store_eq kvs1 kvs2 : data kvs1 = data kvs2 → kvs1 = kvs2.
Proof. destruct kvs1, kvs2. simpl. by intros ->. Qed.

(** X10.  After any sequence of [Put]s and [Delete]s, [Get K] returns what
    the last operation on [K] left: the value of the last [Put K], absence
    after a [Delete K], and what the store held before when no operation
    touched [K]. *)
Theorem Get_returns_last_write
    (kvs : KeyValueStore) (ops : list StoreOp) (K : string) :
  (Get (replay kvs ops) K).1 =
    match last_write K ops with
    | Some (Some V) => (V, true)
    | Some None => (EmptyString, false)
    | None => (Get kvs K).1
    end.
Proof.
  induction ops as [|o ops IH] using rev_ind; [done|].
  rewrite replay_snoc, last_write_snoc.
  rewrite Get_lookup in *. destruct o as [key value|key]; simpl.
  - rewrite lookup_insert. by case_decide.
  - rewrite lookup_delete. by case_decide.
Qed.

(** X11.  Operations on different keys commute: the store ends up the same
    whichever of the two is applied first. *)
Theorem operations_on_distinct_keys_commute
    (kvs : KeyValueStore) (o1 o2 : StoreOp) :
  op_key o1 ≠ op_key o2 →
  apply_op (apply_op kvs o1) o2 = apply_op (apply_op kvs o2) o1.
Proof.
  intros Hne. apply store_eq.
  destruct o1 as [k1 v1|k1], o2 as [k2 v2|k2]; simpl in *.
  - by apply insert_insert_ne.
  - by rewrite delete_insert_ne.
  - by rewrite delete_insert_ne.
  - apply delete_delete.
Qed.


End store_extras.

(** ** The router: further properties *)
Section router_extras.
Import main.

(** X13.  [Get] never changes the local store: whichever node owns the
    key, whatever the network answers and even when the lookup panics, the
    store after the call is the store before it. *)
Theorem Get_handler_leaves_store_unchanged
    (T : Transport) (s : Server) (ctx : Context) (req : pb.GetRequest)
    (w : World) :
  the_store (Get T s ctx req w).2 = the_store w.
Proof.
  rewrite Get_run.
  destruct (hash.GetNode _ _) as [owner|p]; [|done].
  case_decide; [done|]. by destruct (dial_error _ _ _).
Qed.

(** X14.  A server keeps in its store only keys that its ring assigns to
    itself: when that holds before a [Put], [Get] or [Delete], it holds
    after it, whatever the key of the request and whatever the network
    answers. *)
Theorem handlers_store_only_owned_keys
    (T : Transport) (s : Server) (ctx : Context) (w : World)
    (preq : pb.PutRequest) (greq : pb.GetRequest) (dreq : pb.DeleteRequest) :
  holds_only_owned_keys s (the_store w) →
  holds_only_owned_keys s (the_store (Put T s ctx preq w).2)
  ∧ holds_only_owned_keys s (the_store (Get T s ctx greq w).2)
  ∧ holds_only_owned_keys s (the_store (Delete T s ctx dreq w).2).
Proof.
  intros Hown. split_and!.
  - rewrite Put_run.
    destruct (hash.GetNode _ _) as [owner|p] eqn:Hget; [|done].
    case_decide as Ho; [|by destruct (dial_error _ _ _)].
    intros K V. simpl. rewrite lookup_insert. case_decide as HK.
    + intros _. by rewrite <- HK, Hget, Ho.
    + apply Hown.
  - rewrite Get_run.
    destruct (hash.GetNode _ _) as [owner|p]; [|done].
    case_decide; [done|]. by destruct (dial_error _ _ _).
  - rewrite Delete_run.
    destruct (hash.GetNode _ _) as [owner|p]; [|done].
    case_decide as Ho; [|by destruct (dial_error _ _ _)].
    intros K V. simpl. rewrite lookup_delete. case_decide; [done|apply Hown].
Qed.

(** What one handler call sends: nothing, or one dial, or one dial, one
    call and the close. *)
Lemma handler_traffic (T : Transport) (s : Server) (ctx : Context) (w : World) :
  (∀ req, ∃ evs, net_log (Put T s ctx req w).2 = net_log w ++ evs
     ∧ (evs = [] ∨ ∃ t,
          hash.GetNode (hashRing s) (pb.PutRequest_Key req) = Returned t
          ∧ t ≠ currentNode s
          ∧ (evs = [EvDial t] ∧ is_Some (dial_error T (net_log w) t)
             ∨ evs = [EvDial t; EvPut t ctx req; EvClose t]
               ∧ dial_error T (net_log w) t = None)))
  ∧ (∀ req, ∃ evs, net_log (Get T s ctx req w).2 = net_log w ++ evs
     ∧ (evs = [] ∨ ∃ t,
          hash.GetNode (hashRing s) (pb.GetRequest_Key req) = Returned t
          ∧ t ≠ currentNode s
          ∧ (evs = [EvDial t] ∧ is_Some (dial_error T (net_log w) t)
             ∨ evs = [EvDial t; EvGet t ctx req; EvClose t]
               ∧ dial_error T (net_log w) t = None)))
  ∧ (∀ req, ∃ evs, net_log (Delete T s ctx req w).2 = net_log w ++ evs
     ∧ (evs = [] ∨ ∃ t,
          hash.GetNode (hashRing s) (pb.DeleteRequest_Key req) = Returned t
          ∧ t ≠ currentNode s
          ∧ (evs = [EvDial t] ∧ is_Some (dial_error T (net_log w) t)
             ∨ evs = [EvDial t; EvDelete t ctx req; EvClose t]
               ∧ dial_error T (net_log w) t = None))).
Proof.
  split_and!; intros req;
    [rewrite Put_run|rewrite Get_run|rewrite Delete_run];
    (destruct (hash.GetNode _ _) as [owner|p] eqn:Hget;
     [|exists []; by rewrite app_nil_r; auto]);
    (case_decide as Ho; [exists []; simpl; by rewrite app_nil_r; auto|]);
    destruct (dial_error _ _ _) as [err|] eqn:Hdial; simpl;
    eexists; (split; [done|]); right; exists owner;
    (split; [done|]); (split; [done|]); eauto.
Qed.

(** X15.  One handler call opens at most one connection, never to the
    node itself and only to the node the ring names for the key; a
    connection that was established carries exactly one call, the request
    as received, and is closed before the handler returns; when the dial
    fails nothing more is sent; what was logged before is kept. *)
Theorem handler_call_sends_at_most_one_request
    (T : Transport) (s : Server) (ctx : Context) (w : World) :
  (∀ req, ∃ evs, net_log (Put T s ctx req w).2 = net_log w ++ evs
     ∧ (evs = [] ∨ ∃ t,
          hash.GetNode (hashRing s) (pb.PutRequest_Key req) = Returned t
          ∧ t ≠ currentNode s
          ∧ (evs = [EvDial t] ∧ is_Some (dial_error T (net_log w) t)
             ∨ evs = [EvDial t; EvPut t ctx req; EvClose t]
               ∧ dial_error T (net_log w) t = None)))
  ∧ (∀ req, ∃ evs, net_log (Get T s ctx req w).2 = net_log w ++ evs
     ∧ (evs = [] ∨ ∃ t,
          hash.GetNode (hashRing s) (pb.GetRequest_Key req) = Returned t
          ∧ t ≠ currentNode s
          ∧ (evs = [EvDial t] ∧ is_Some (dial_error T (net_log w) t)
             ∨ evs = [EvDial t; EvGet t ctx req; EvClose t]
               ∧ dial_error T (net_log w) t = None)))
  ∧ (∀ req, ∃ evs, net_log (Delete T s ctx req w).2 = net_log w ++ evs
     ∧ (evs = [] ∨ ∃ t,
          hash.GetNode (hashRing s) (pb.DeleteRequest_Key req) = Returned t
          ∧ t ≠ currentNode s
          ∧ (evs = [EvDial t] ∧ is_Some (dial_error T (net_log w) t)
             ∨ evs = [EvDial t; EvDelete t ctx req; EvClose t]
               ∧ dial_error T (net_log w) t = None))).
Proof. apply handler_traffic. Qed.

Lemma GetNode_build_member R ns K :
  hash.nodes (hash.build R ns) ≠ [] →
  ∃ node, hash.GetNode (hash.build R ns) K = Returned node ∧ node ∈ ns.
Proof.
  intros Hne.
  destruct (GetNode_successor _ K (build_sorted R ns) Hne) as (h & [Hin _] & ->).
  destruct (build_owner R ns h Hin) as (node & _ & Hnode & _ & _ & ->).
  by exists node.
Qed.

(** X21.  On a server whose ring was built from the nodes [ns] and is not
    empty, every [Put], [Get] and [Delete] returns a reply (none panics),
    and whatever it sends goes to a node of [ns] other than the server
    itself. *)
Theorem handlers_reply_on_a_nonempty_ring
    (T : Transport) (s : Server) (R : Z) (ns : list string) (ctx : Context)
    (w : World) (preq : pb.PutRequest) (greq : pb.GetRequest)
    (dreq : pb.DeleteRequest) :
  hashRing s = hash.build R ns → hash.nodes (hash.build R ns) ≠ [] →
  replies_within s ns w (Put T s ctx preq w)
  ∧ replies_within s ns w (Get T s ctx greq w)
  ∧ replies_within s ns w (Delete T s ctx dreq w).
Proof.
  intros Hring Hne.
  pose proof (handler_traffic T s ctx w) as (HP & HG & HD).
  assert (∀ evs t, t ∈ ns → t ≠ currentNode s →
            (∃ ev1, evs = [EvDial t]
                    ∨ evs = [EvDial t; ev1; EvClose t] ∧ ev_target ev1 = t) →
            Forall (λ ev, ev_target ev ∈ ns ∧ ev_target ev ≠ currentNode s) evs)
    as Hall.
  { intros evs t Ht Hne' (ev1 & [->|[-> Hev1]]);
      repeat constructor; simpl; rewrite ?Hev1; done. }
  split_and!.
  - destruct (GetNode_build_member R ns (pb.PutRequest_Key preq) Hne)
      as (node & Hget & Hnode).
    split.
    + rewrite Put_run, Hring, Hget. case_decide; [by eexists|].
      destruct (dial_error _ _ _); by eexists.
    + destruct (HP preq) as (evs & Hlog & Hevs). exists evs. split; [done|].
      destruct Hevs as [->|(t & Ht & Hne' & Hcase)]; [constructor|].
      rewrite Hring, Hget in Ht. simplify_eq.
      apply (Hall _ t); [done..|].
      destruct Hcase as [[-> _]|[-> _]];
        [exists (EvDial t); by left|eexists; right; by split].
  - destruct (GetNode_build_member R ns (pb.GetRequest_Key greq) Hne)
      as (node & Hget & Hnode).
    split.
    + rewrite Get_run, Hring, Hget. case_decide; [by eexists|].
      destruct (dial_error _ _ _); by eexists.
    + destruct (HG greq) as (evs & Hlog & Hevs). exists evs. split; [done|].
      destruct Hevs as [->|(t & Ht & Hne' & Hcase)]; [constructor|].
      rewrite Hring, Hget in Ht. simplify_eq.
      apply (Hall _ t); [done..|].
      destruct Hcase as [[-> _]|[-> _]];
        [exists (EvDial t); by left|eexists; right; by split].
  - destruct (GetNode_build_member R ns (pb.DeleteRequest_Key dreq) Hne)
      as (node & Hget & Hnode).
    split.
    + rewrite Delete_run, Hring, Hget. case_decide; [by eexists|].
      destruct (dial_error _ _ _); by eexists.
    + destruct (HD dreq) as (evs & Hlog & Hevs). exists evs. split; [done|].
      destruct Hevs as [->|(t & Ht & Hne' & Hcase)]; [constructor|].
      rewrite Hring, Hget in Ht. simplify_eq.
      apply (Hall _ t); [done..|].
      destruct Hcase as [[-> _]|[-> _]];
        [exists (EvDial t); by left|eexists; right; by split].
Qed.

End router_extras.

(** ** Several nodes: forwarding end to end *)
Section cluster_extras.
Import main cluster.

Lemma handle_local T s ctx r kvs :
  hash.GetNode (hashRing s) (request_key r) = Returned (currentNode s) →
  handle T s ctx r {| the_store := kvs; net_log := [] |}
    = (Returned (local_result kvs r).1,
       {| the_store := (local_result kvs r).2; net_log := [] |}).
Proof.
  intros Hown. destruct r as [req|req|req]; unfold handle, mbind, M_bind;
    [rewrite Put_run|rewrite Get_run|rewrite Delete_run];
    simpl in *; by rewrite Hown, decide_True.
Qed.

Lemma handle_panic T s ctx r w p :
  hash.GetNode (hashRing s) (request_key r) = Panicked p →
  handle T s ctx r w = (Panicked p, w).
Proof.
  intros Hp. destruct r as [req|req|req]; unfold handle, mbind, M_bind;
    [rewrite Put_run|rewrite Get_run|rewrite Delete_run];
    simpl in *; by rewrite Hp.
Qed.

(** What a forwarding handler answers, given what the forwarded call did. *)
Lemma handle_forward fwd s ctx r kvs t resp c' :
  hash.GetNode (hashRing s) (request_key r) = Returned t →
  t ≠ currentNode s →
  fwd t ctx r = Some (resp, c') →
  (∃ kvs', resp = (local_result kvs' r).1) ∨ resp = no_response r →
  ∃ log,
    handle (transport_of fwd) s ctx r {| the_store := kvs; net_log := [] |}
      = (Returned resp, {| the_store := kvs; net_log := log |})
    ∧ omap event_request log = [(t, ctx, r)].
Proof.
  intros Hown Hne Hfwd Hkind.
  destruct r as [req|req|req]; unfold handle, mbind, M_bind;
    [rewrite Put_run|rewrite Get_run|rewrite Delete_run];
    simpl in *; rewrite Hown, decide_False by done; simpl; rewrite Hfwd;
    (destruct Hkind as [[kvs' ->]| ->]; simpl; eexists; split; done).
Qed.

Lemma handle_forward_lost fwd s ctx r kvs t :
  hash.GetNode (hashRing s) (request_key r) = Returned t →
  t ≠ currentNode s →
  ∃ resp log,
    handle (transport_of fwd) s ctx r {| the_store := kvs; net_log := [] |}
      = (Returned resp, {| the_store := kvs; net_log := log |})
    ∧ omap event_request log = [(t, ctx, r)].
Proof.
  intros Hown Hne.
  destruct r as [req|req|req]; unfold handle, mbind, M_bind;
    [rewrite Put_run|rewrite Get_run|rewrite Delete_run];
    simpl in *; rewrite Hown, decide_False by done; simpl;
    eexists _, _; split; done.
Qed.

Lemma with_store_same n : with_store n (node_store n) = n.
Proof. by destruct n. Qed.

Lemma serve_local hops (c : Cluster) a n ctx r :
  c !! a = Some n →
  hash.GetNode (node_ring n) (request_key r) = Returned a →
  serve hops c a ctx r
    = Some ((local_result (node_store n) r).1,
            <[a := with_store n (local_result (node_store n) r).2]> c).
Proof.
  intros Ha Hown. destruct hops; simpl; rewrite Ha;
    rewrite handle_local by done; done.
Qed.

Lemma serve_not_running hops (c : Cluster) a ctx r :
  c !! a = None → serve hops c a ctx r = Some (no_response r, c).
Proof. intros Ha. destruct hops; simpl; by rewrite Ha. Qed.

(** A request sent to any running node whose ring names [owner], itself
    running and naming itself, is served by the handler of [owner]. *)
Lemma serve_routed hops (c : Cluster) a na owner no ctx r :
  c !! a = Some na → c !! owner = Some no →
  hash.GetNode (node_ring na) (request_key r) = Returned owner →
  hash.GetNode (node_ring no) (request_key r) = Returned owner →
  serve (S hops) c a ctx r
    = Some ((local_result (node_store no) r).1,
            <[owner := with_store no (local_result (node_store no) r).2]> c).
Proof.
  intros Ha Ho Hna Hno.
  destruct (decide (owner = a)) as [->|Hne].
  { simplify_eq. by apply serve_local. }
  pose proof (serve_local hops c owner no ctx r Ho Hno) as Hfwd.
  destruct (handle_forward (serve hops c) (server_of a na) ctx r
              (node_store na) owner _ _ Hna Hne Hfwd) as (log & Hrun & Hreq).
  { left. by eexists. }
  cbn [serve]. rewrite Ha, Hrun. cbn [net_log the_store]. rewrite Hreq.
  rewrite Hfwd. simpl. f_equal. f_equal.
  rewrite with_store_same. apply insert_id.
  by rewrite lookup_insert_ne.
Qed.

(** X16.  Forwarding is transparent: a request sent to any running node
    whose ring names [owner] for the key gives the caller the same
    response, and leaves the cluster in the same state, as the same request
    sent to [owner] directly; one forwarding hop is enough.  The response
    is the one the handler of [owner] computes on its own store, and only
    the store of [owner] can have changed. *)
Theorem forwarding_is_transparent
    (hops : nat) (c : Cluster) (a owner : string) (na no : Node)
    (ctx : Context) (r : Request) :
  c !! a = Some na → c !! owner = Some no →
  hash.GetNode (node_ring na) (request_key r) = Returned owner →
  hash.GetNode (node_ring no) (request_key r) = Returned owner →
  serve (S hops) c a ctx r = serve 0 c owner ctx r
  ∧ serve 0 c owner ctx r
    = Some ((local_result (node_store no) r).1,
            <[owner := with_store no (local_result (node_store no) r).2]> c).
Proof.
  intros Ha Ho Hna Hno.
  rewrite (serve_routed hops c a na owner no) by done.
  by rewrite (serve_local 0 c owner no).
Qed.

(** X17.  Across nodes that share a ring: after a [Put] of [K], [V] sent
    to any running node, a [Get] of [K] sent to any running node returns
    [V] with [found = true]; and after a [Delete] of [K] sent to any
    running node, it returns [found = false].  The owner of [K] must be
    running. *)
Theorem put_anywhere_get_anywhere
    (c : Cluster) (ring : hash.HashRing) (K V : string) (owner a b d : string)
    (ctx : Context) :
  shared_ring c ring →
  hash.GetNode ring K = Returned owner →
  is_Some (c !! owner) → is_Some (c !! a) → is_Some (c !! b) →
  is_Some (c !! d) →
  ∃ c1 c2,
    serve 1 c a ctx (ReqPut {| pb.PutRequest_Key := K;
                               pb.PutRequest_Value := V |})
      = Some (RespPut (Some {| pb.PutResponse_Success := true |}, None), c1)
    ∧ serve 1 c1 b ctx (ReqGet {| pb.GetRequest_Key := K |})
      = Some (RespGet (Some {| pb.GetResponse_Value := V;
                               pb.GetResponse_Found := true |}, None), c1)
    ∧ serve 1 c1 d ctx (ReqDelete {| pb.DeleteRequest_Key := K |})
      = Some (RespDelete (Some {| pb.DeleteResponse_Success := true |}, None),
              c2)
    ∧ serve 1 c2 b ctx (ReqGet {| pb.GetRequest_Key := K |})
      = Some (RespGet (Some {| pb.GetResponse_Value := EmptyString;
                               pb.GetResponse_Found := false |}, None), c2).
Proof.
  intros Hring Hown [no Ho] [na Ha] [nb Hb] [nd Hd].
  assert (∀ (c' : Cluster) x n, c' !! x = Some n → node_ring n = ring →
            hash.GetNode (node_ring n) K = Returned owner) as Hr.
  { intros c' x n _ ->. done. }
  pose proof (Hring _ _ Ho) as Hro. pose proof (Hring _ _ Ha) as Hra.
  pose proof (Hring _ _ Hb) as Hrb. pose proof (Hring _ _ Hd) as Hrd.
  set (no1 := with_store no (store.Put (node_store no) K V)).
  set (c1 := <[owner := no1]> c).
  set (no2 := with_store no1 (store.Delete (node_store no1) K)).
  set (c2 := <[owner := no2]> c1).
  assert (∀ x n, c !! x = Some n →
            ∃ n', c1 !! x = Some n' ∧ node_ring n' = ring) as H1.
  { intros x n Hx. unfold c1. destruct (decide (owner = x)) as [->|Hne].
    - rewrite lookup_insert_eq. by eexists.
    - rewrite lookup_insert_ne by done. eexists. split; [done|]. eauto. }
  assert (∀ x n, c !! x = Some n →
            ∃ n', c2 !! x = Some n' ∧ node_ring n' = ring) as H2.
  { intros x n Hx. unfold c2. destruct (decide (owner = x)) as [->|Hne].
    - rewrite lookup_insert_eq. by eexists.
    - rewrite lookup_insert_ne by done. eauto. }
  assert (c1 !! owner = Some no1) as Ho1 by apply lookup_insert_eq.
  assert (c2 !! owner = Some no2) as Ho2 by apply lookup_insert_eq.
  destruct (H1 _ _ Hb) as (nb1 & Hb1 & Hrb1).
  destruct (H1 _ _ Hd) as (nd1 & Hd1 & Hrd1).
  destruct (H2 _ _ Hb) as (nb2 & Hb2 & Hrb2).
  exists c1, c2. split_and!.
  - rewrite (serve_routed 0 c a na owner no); simpl; by rewrite ?Hra, ?Hro.
  - rewrite (serve_routed 0 c1 b nb1 owner no1); simpl; rewrite ?Hrb1, ?Hro;
      try done.
    unfold store.Get. simpl. rewrite lookup_insert_eq. simpl.
    f_equal. f_equal. unfold c1. rewrite insert_insert_eq. by destruct no.
  - rewrite (serve_routed 0 c1 d nd1 owner no1); simpl; by rewrite ?Hrd1, ?Hro.
  - rewrite (serve_routed 0 c2 b nb2 owner no2); simpl; rewrite ?Hrb2, ?Hro;
      try done.
    unfold store.Get. simpl. rewrite lookup_delete_eq. simpl.
    f_equal. f_equal. unfold c2. by rewrite insert_insert_eq.
Qed.

(** X18.  When the ring of a running node names an owner that is not
    running, the caller gets an error and no response, and no store in the
    cluster changes: there is no fallback to the local store or to another
    node. *)
Theorem forwarding_to_a_stopped_owner_fails
    (hops : nat) (c : Cluster) (a owner : string) (na : Node)
    (ctx : Context) (r : Request) :
  c !! a = Some na →
  hash.GetNode (node_ring na) (request_key r) = Returned owner →
  owner ≠ a → c !! owner = None →
  serve (S hops) c a ctx r = Some (no_response r, c).
Proof.
  intros Ha Hna Hne Ho.
  pose proof (serve_not_running hops c owner ctx r Ho) as Hfwd.
  destruct (handle_forward (serve hops c) (server_of a na) ctx r
              (node_store na) owner _ _ Hna Hne Hfwd) as (log & Hrun & Hreq).
  { by right. }
  cbn [serve]. rewrite Ha, Hrun. cbn [net_log the_store]. rewrite Hreq.
  rewrite Hfwd. simpl. f_equal. f_equal.
  rewrite with_store_same. by apply insert_id.
Qed.

(** X19.  Nothing bounds the chain of forwarded calls: when two running
    nodes each take the other for the owner of a key, a request for that
    key sent to either of them is forwarded back and forth and gets no
    response, however many hops are allowed. *)
Theorem crossed_rings_forward_forever
    (c : Cluster) (a b : string) (na nb : Node) (ctx : Context) (r : Request) :
  c !! a = Some na → c !! b = Some nb → a ≠ b →
  hash.GetNode (node_ring na) (request_key r) = Returned b →
  hash.GetNode (node_ring nb) (request_key r) = Returned a →
  ∀ hops, serve hops c a ctx r = None ∧ serve hops c b ctx r = None.
Proof.
  intros Ha Hb Hne Hna Hnb hops.
  destruct (handle_forward_lost (λ _ _ _, None) (server_of a na) ctx r
              (node_store na) b Hna) as (ra0 & la0 & Hra0 & Hla0); [done|].
  destruct (handle_forward_lost (λ _ _ _, None) (server_of b nb) ctx r
              (node_store nb) a Hnb) as (rb0 & lb0 & Hrb0 & Hlb0); [done|].
  induction hops as [|hops [IHa IHb]].
  - split; cbn [serve]; [rewrite Ha, Hra0|rewrite Hb, Hrb0];
      cbn [net_log]; by rewrite ?Hla0, ?Hlb0.
  - destruct (handle_forward_lost (serve hops c) (server_of a na) ctx r
                (node_store na) b Hna) as (ra & la & Hra & Hla); [done|].
    destruct (handle_forward_lost (serve hops c) (server_of b nb) ctx r
                (node_store nb) a Hnb) as (rb & lb & Hrb & Hlb); [done|].
    split; cbn [serve]; [rewrite Ha, Hra|rewrite Hb, Hrb];
      cbn [net_log]; rewrite ?Hla, ?Hlb, ?IHa, ?IHb; done.
Qed.

(** X22.  Data lives only at its owner: when every running process holds
    only keys its ring assigns to it, this is still so after a request
    sent to any running node whose ring agrees with the running owner's. *)
Theorem requests_keep_keys_at_their_owner
    (hops : nat) (c : Cluster) (a owner : string) (na no : Node)
    (ctx : Context) (r : Request) :
  placed c →
  c !! a = Some na → c !! owner = Some no →
  hash.GetNode (node_ring na) (request_key r) = Returned owner →
  hash.GetNode (node_ring no) (request_key r) = Returned owner →
  ∃ resp c', serve (S hops) c a ctx r = Some (resp, c') ∧ placed c'.
Proof.
  intros Hpl Ha Ho Hna Hno. eexists _, _. split; [by eapply serve_routed|].
  intros x n. destruct (decide (owner = x)) as [<-|Hne].
  - rewrite lookup_insert_eq. intros [= <-]. specialize (Hpl _ _ Ho).
    intros K V. destruct r as [req|req|req]; simpl in *.
    + rewrite lookup_insert. case_decide as HK; [|apply Hpl].
      intros _. by rewrite <- HK.
    + apply Hpl.
    + rewrite lookup_delete. case_decide; [done|apply Hpl].
  - rewrite lookup_insert_ne by done. apply Hpl.
Qed.

End cluster_extras.

(** ** The further properties on the cluster of [main()] *)
Section extras_on_main_cluster.
Import main hash.

Lemma single_node_ring_returns_node_witness :
  0 < 3 ∧ GetNode (build 3 ["localhost:50051"%string]) "mykey"
          = Returned "localhost:50051"%string.
Proof.
  assert (0 < 3) as HR by lia.
  split; [exact HR|].
  exact (single_node_ring_returns_node 3 "localhost:50051" "mykey" HR).
Defined.

Lemma nonpositive_replication_ring_stays_empty_witness :
  -1 ≤ 0
  ∧ build (-1) main_nodes = NewHashRing (-1)
  ∧ GetNode (build (-1) main_nodes) "mykey" = Panicked IndexOutOfRange.
Proof.
  assert (-1 ≤ 0) as HR by lia.
  split; [exact HR|].
  exact (nonpositive_replication_ring_stays_empty (-1) main_nodes "mykey" HR).
Defined.

Lemma entries_are_the_mapped_hashes_witness :
  reachable main_hashRing
  ∧ (1334402449 ∈ nodes main_hashRing
     ↔ is_Some (nodeMap main_hashRing !! 1334402449)).
Proof.
  assert (reachable main_hashRing) as Hreach.
  { exact (build_reachable 3 main_nodes). }
  split; [exact Hreach|].
  exact (entries_are_the_mapped_hashes main_hashRing 1334402449 Hreach).
Defined.

Lemma key_on_an_entry_gets_its_node_witness :
  reachable main_hashRing
  ∧ checksum "localhost:500510" ∈ nodes main_hashRing
  ∧ ∃ node, nodeMap main_hashRing !! checksum "localhost:500510" = Some node
            ∧ GetNode main_hashRing "localhost:500510" = Returned node.
Proof.
  assert (reachable main_hashRing) as Hreach.
  { exact (build_reachable 3 main_nodes). }
  assert (checksum "localhost:500510" ∈ nodes main_hashRing) as Hin.
  { apply (bool_decide_unpack _). vm_compute. exact I. }
  split; [exact Hreach|]. split; [exact Hin|].
  exact (key_on_an_entry_gets_its_node main_hashRing "localhost:500510"
           Hreach Hin).
Defined.

Lemma added_node_owns_its_positions_witness :
  0 ≤ 2 < replication main_hashRing
  ∧ GetNode (AddNode main_hashRing "localhost:50054")
      ("localhost:50054" +:+ strconv.Itoa 2)
    = Returned "localhost:50054"%string.
Proof.
  assert (0 ≤ 2 < replication main_hashRing) as Hi.
  { split; [vm_compute; discriminate|vm_compute; reflexivity]. }
  split; [exact Hi|].
  exact (added_node_owns_its_positions main_hashRing "localhost:50054" 2 Hi).
Defined.

Lemma AddNode_moves_keys_only_to_new_node_witness :
  reachable main_hashRing ∧ nodes main_hashRing ≠ []
  ∧ (GetNode (AddNode main_hashRing "localhost:50054") "mykey"
       = GetNode main_hashRing "mykey"
     ∨ GetNode (AddNode main_hashRing "localhost:50054") "mykey"
       = Returned "localhost:50054"%string).
Proof.
  assert (reachable main_hashRing) as Hreach.
  { exact (build_reachable 3 main_nodes). }
  assert (nodes main_hashRing ≠ []) as Hne.
  { vm_compute. discriminate. }
  split; [exact Hreach|]. split; [exact Hne|].
  exact (AddNode_moves_keys_only_to_new_node main_hashRing "localhost:50054"
           "mykey" Hreach Hne).
Defined.

Lemma entries_independent_of_order_witness :
  main_nodes ≡ₚ reverse main_nodes
  ∧ nodes (build 3 main_nodes) = nodes (build 3 (reverse main_nodes)).
Proof.
  assert (main_nodes ≡ₚ reverse main_nodes) as Hp.
  { symmetry. apply reverse_Permutation. }
  split; [exact Hp|].
  exact (entries_independent_of_order 3 _ _ Hp).
Defined.

Lemma routing_independent_of_order_witness :
  main_nodes ≡ₚ reverse main_nodes
  ∧ NoDup (main_nodes ≫= vnode_hashes 3)
  ∧ GetNode (build 3 main_nodes) "mykey"
    = GetNode (build 3 (reverse main_nodes)) "mykey".
Proof.
  assert (main_nodes ≡ₚ reverse main_nodes) as Hp.
  { symmetry. apply reverse_Permutation. }
  assert (NoDup (main_nodes ≫= vnode_hashes 3)) as Hnd.
  { apply (bool_decide_unpack _). vm_compute. exact I. }
  split; [exact Hp|]. split; [exact Hnd|].
  exact (routing_independent_of_order 3 _ _ "mykey" Hp Hnd).
Defined.

Lemma readding_a_node_keeps_routing_witness :
  "localhost:50052"%string ∈ main_nodes
  ∧ NoDup (main_nodes ≫= vnode_hashes 3)
  ∧ GetNode (AddNode (build 3 main_nodes) "localhost:50052") "mykey"
    = GetNode (build 3 main_nodes) "mykey".
Proof.
  assert ("localhost:50052"%string ∈ main_nodes) as Hin.
  { apply (bool_decide_unpack _). vm_compute. exact I. }
  assert (NoDup (main_nodes ≫= vnode_hashes 3)) as Hnd.
  { apply (bool_decide_unpack _). vm_compute. exact I. }
  split; [exact Hin|]. split; [exact Hnd|].
  exact (readding_a_node_keeps_routing 3 main_nodes "localhost:50052" "mykey"
           Hin Hnd).
Defined.

Lemma ring_hashes_fit_uint32_witness :
  reachable main_hashRing
  ∧ 0 ≤ checksum "mykey" < 2 ^ 32
  ∧ ∀ h, h ∈ nodes main_hashRing → 0 ≤ h < 2 ^ 32.
Proof.
  assert (reachable main_hashRing) as Hreach.
  { exact (build_reachable 3 main_nodes). }
  split; [exact Hreach|].
  exact (ring_hashes_fit_uint32 main_hashRing "mykey" Hreach).
Defined.

Lemma operations_on_distinct_keys_commute_witness :
  op_key (OpPut "a" "1") ≠ op_key (OpDelete "b")
  ∧ apply_op (apply_op store.NewKeyValueStore (OpPut "a" "1")) (OpDelete "b")
    = apply_op (apply_op store.NewKeyValueStore (OpDelete "b")) (OpPut "a" "1").
Proof.
  assert (op_key (OpPut "a" "1") ≠ op_key (OpDelete "b")) as Hne.
  { simpl. discriminate. }
  split; [exact Hne|].
  exact (operations_on_distinct_keys_commute store.NewKeyValueStore _ _ Hne).
Defined.


End extras_on_main_cluster.

Section extras_on_main_cluster_handlers.
Import main cluster.

Lemma main_cluster_nodes a n : main_cluster !! a = Some n → n = main_node.
Proof.
  unfold main_cluster. intros H.
  repeat (rewrite lookup_insert in H; case_decide; [by simplify_eq|]).
  by rewrite lookup_empty in H.
Qed.

Lemma main_cluster_shared_ring : shared_ring main_cluster main_hashRing.
Proof. by intros a n ->%main_cluster_nodes. Qed.

Lemma main_cluster_placed : placed main_cluster.
Proof.
  intros a n ->%main_cluster_nodes K V H. simpl in H.
  by rewrite lookup_empty in H.
Qed.

Lemma handlers_store_only_owned_keys_witness :
  holds_only_owned_keys main_server (store.Put store.NewKeyValueStore "a" "1")
  ∧ holds_only_owned_keys main_server
      (the_store
         (Put answering_cluster main_server 0%N
            {| pb.PutRequest_Key := "mykey"; pb.PutRequest_Value := "myvalue" |}
            {| the_store := store.Put store.NewKeyValueStore "a" "1";
               net_log := [] |}).2).
Proof.
  assert (holds_only_owned_keys main_server
            (store.Put store.NewKeyValueStore "a" "1")) as Hown.
  { intros K V H. simpl in H. rewrite lookup_insert in H.
    case_decide as HK; [|by rewrite lookup_empty in H].
    rewrite <- HK. vm_compute. reflexivity. }
  split; [exact Hown|].
  exact (proj1 (handlers_store_only_owned_keys answering_cluster main_server
                  0%N {| the_store := store.Put store.NewKeyValueStore "a" "1";
                         net_log := [] |}
                  {| pb.PutRequest_Key := "mykey";
                     pb.PutRequest_Value := "myvalue" |}
                  {| pb.GetRequest_Key := "mykey" |}
                  {| pb.DeleteRequest_Key := "mykey" |} Hown)).
Defined.

Lemma handlers_reply_on_a_nonempty_ring_witness :
  hashRing main_server = hash.build 3 main_nodes
  ∧ hash.nodes (hash.build 3 main_nodes) ≠ []
  ∧ replies_within main_server main_nodes main_world
      (Get unreachable_cluster main_server 0%N
         {| pb.GetRequest_Key := "mykey" |} main_world).
Proof.
  assert (hashRing main_server = hash.build 3 main_nodes) as Hring.
  { reflexivity. }
  assert (hash.nodes (hash.build 3 main_nodes) ≠ []) as Hne.
  { vm_compute. discriminate. }
  split; [exact Hring|]. split; [exact Hne|].
  exact (proj1 (proj2 (handlers_reply_on_a_nonempty_ring unreachable_cluster
                  main_server 3 main_nodes 0%N main_world
                  {| pb.PutRequest_Key := "mykey";
                     pb.PutRequest_Value := "myvalue" |}
                  {| pb.GetRequest_Key := "mykey" |}
                  {| pb.DeleteRequest_Key := "mykey" |} Hring Hne))).
Defined.

Lemma forwarding_is_transparent_witness :
  main_cluster !! "localhost:50051"%string = Some main_node
  ∧ main_cluster !! "localhost:50053"%string = Some main_node
  ∧ hash.GetNode (node_ring main_node) "mykey"
    = Returned "localhost:50053"%string
  ∧ serve 1 main_cluster "localhost:50051" 0%N
      (ReqPut {| pb.PutRequest_Key := "mykey";
                 pb.PutRequest_Value := "myvalue" |})
    = serve 0 main_cluster "localhost:50053" 0%N
        (ReqPut {| pb.PutRequest_Key := "mykey";
                   pb.PutRequest_Value := "myvalue" |}).
Proof.
  assert (main_cluster !! "localhost:50051"%string = Some main_node) as Ha.
  { vm_compute. reflexivity. }
  assert (main_cluster !! "localhost:50053"%string = Some main_node) as Ho.
  { vm_compute. reflexivity. }
  assert (hash.GetNode (node_ring main_node) "mykey"
          = Returned "localhost:50053"%string) as Hk.
  { vm_compute. reflexivity. }
  split; [exact Ha|]. split; [exact Ho|]. split; [exact Hk|].
  exact (proj1 (forwarding_is_transparent 0 main_cluster "localhost:50051"
                  "localhost:50053" main_node main_node 0%N
                  (ReqPut {| pb.PutRequest_Key := "mykey";
                             pb.PutRequest_Value := "myvalue" |})
                  Ha Ho Hk Hk)).
Defined.

Lemma put_anywhere_get_anywhere_witness :
  shared_ring main_cluster main_hashRing
  ∧ hash.GetNode main_hashRing "mykey" = Returned "localhost:50053"%string
  ∧ ∃ c1 c2,
      serve 1 main_cluster "localhost:50051" 0%N
        (ReqPut {| pb.PutRequest_Key := "mykey";
                   pb.PutRequest_Value := "myvalue" |})
        = Some (RespPut (Some {| pb.PutResponse_Success := true |}, None), c1)
      ∧ serve 1 c1 "localhost:50052" 0%N
          (ReqGet {| pb.GetRequest_Key := "mykey" |})
        = Some (RespGet (Some {| pb.GetResponse_Value := "myvalue";
                                 pb.GetResponse_Found := true |}, None), c1)
      ∧ serve 1 c1 "localhost:50051" 0%N
          (ReqDelete {| pb.DeleteRequest_Key := "mykey" |})
        = Some (RespDelete (Some {| pb.DeleteResponse_Success := true |}, None),
                c2)
      ∧ serve 1 c2 "localhost:50052" 0%N
          (ReqGet {| pb.GetRequest_Key := "mykey" |})
        = Some (RespGet (Some {| pb.GetResponse_Value := EmptyString;
                                 pb.GetResponse_Found := false |}, None), c2).
Proof.
  assert (hash.GetNode main_hashRing "mykey"
          = Returned "localhost:50053"%string) as Hk.
  { vm_compute. reflexivity. }
  assert (is_Some (main_cluster !! "localhost:50051"%string)) as H1.
  { exists main_node. vm_compute. reflexivity. }
  assert (is_Some (main_cluster !! "localhost:50052"%string)) as H2.
  { exists main_node. vm_compute. reflexivity. }
  assert (is_Some (main_cluster !! "localhost:50053"%string)) as H3.
  { exists main_node. vm_compute. reflexivity. }
  split; [exact main_cluster_shared_ring|]. split; [exact Hk|].
  exact (put_anywhere_get_anywhere main_cluster main_hashRing "mykey" "myvalue"
           "localhost:50053" "localhost:50051" "localhost:50052"
           "localhost:50051" 0%N main_cluster_shared_ring Hk H3 H1 H2 H1).
Defined.

Lemma forwarding_to_a_stopped_owner_fails_witness :
  delete "localhost:50053"%string main_cluster !! "localhost:50051"%string
    = Some main_node
  ∧ delete "localhost:50053"%string main_cluster !! "localhost:50053"%string
    = None
  ∧ serve 1 (delete "localhost:50053"%string main_cluster)
      "localhost:50051" 0%N (ReqGet {| pb.GetRequest_Key := "mykey" |})
    = Some (RespGet (None, Some unavailable),
            delete "localhost:50053"%string main_cluster).
Proof.
  assert (delete "localhost:50053"%string main_cluster
            !! "localhost:50051"%string = Some main_node) as Ha.
  { vm_compute. reflexivity. }
  assert (delete "localhost:50053"%string main_cluster
            !! "localhost:50053"%string = None) as Ho.
  { vm_compute. reflexivity. }
  assert (hash.GetNode (node_ring main_node) "mykey"
          = Returned "localhost:50053"%string) as Hk.
  { vm_compute. reflexivity. }
  assert ("localhost:50053"%string ≠ "localhost:50051"%string) as Hne.
  { discriminate. }
  split; [exact Ha|]. split; [exact Ho|].
  exact (forwarding_to_a_stopped_owner_fails 0 _ "localhost:50051"
           "localhost:50053" main_node 0%N
           (ReqGet {| pb.GetRequest_Key := "mykey" |}) Ha Hk Hne Ho).
Defined.

Lemma crossed_rings_forward_forever_witness :
  hash.GetNode (hash.build 3 ["B"%string]) "mykey" = Returned "B"%string
  ∧ hash.GetNode (hash.build 3 ["A"%string]) "mykey" = Returned "A"%string
  ∧ ∀ hops,
      serve hops crossed_cluster "A" 0%N
        (ReqGet {| pb.GetRequest_Key := "mykey" |}) = None
      ∧ serve hops crossed_cluster "B" 0%N
          (ReqGet {| pb.GetRequest_Key := "mykey" |}) = None.
Proof.
  assert (hash.GetNode (hash.build 3 ["B"%string]) "mykey"
          = Returned "B"%string) as HB.
  { vm_compute. reflexivity. }
  assert (hash.GetNode (hash.build 3 ["A"%string]) "mykey"
          = Returned "A"%string) as HA.
  { vm_compute. reflexivity. }
  split; [exact HB|]. split; [exact HA|].
  assert ("A"%string ≠ "B"%string) as Hne by discriminate.
  exact (crossed_rings_forward_forever crossed_cluster "A" "B"
           {| node_ring := hash.build 3 ["B"%string];
              node_nodes := ["B"%string];
              node_store := store.NewKeyValueStore |}
           {| node_ring := hash.build 3 ["A"%string];
              node_nodes := ["A"%string];
              node_store := store.NewKeyValueStore |}
           0%N (ReqGet {| pb.GetRequest_Key := "mykey" |})
           eq_refl eq_refl Hne HB HA).
Defined.

Lemma requests_keep_keys_at_their_owner_witness :
  placed main_cluster
  ∧ ∃ resp c',
      serve 1 main_cluster "localhost:50051" 0%N
        (ReqPut {| pb.PutRequest_Key := "mykey";
                   pb.PutRequest_Value := "myvalue" |}) = Some (resp, c')
      ∧ placed c'.
Proof.
  assert (main_cluster !! "localhost:50051"%string = Some main_node) as Ha.
  { vm_compute. reflexivity. }
  assert (main_cluster !! "localhost:50053"%string = Some main_node) as Ho.
  { vm_compute. reflexivity. }
  assert (hash.GetNode (node_ring main_node) "mykey"
          = Returned "localhost:50053"%string) as Hk.
  { vm_compute. reflexivity. }
  split; [exact main_cluster_placed|].
  exact (requests_keep_keys_at_their_owner 0 main_cluster "localhost:50051"
           "localhost:50053" main_node main_node 0%N
           (ReqPut {| pb.PutRequest_Key := "mykey";
                      pb.PutRequest_Value := "myvalue" |})
           main_cluster_placed Ha Ho Hk Hk).
Defined.

End extras_on_main_cluster_handlers.
